(** * Locked-In: a shallow embedding of the extension's scripts

    The development follows the three scripts of the extension:
    - [scripts/tabManager.js]: the service worker (tab grouping, the registry
      of distracting domains and tabs, the lock gate run on tab activation,
      the countdown timer);
    - the lock page script (PIN entry and session unlock);
    - [scripts/pages/task.js]: the task list page.

    JavaScript strings are modelled by [string] (the UTF-8 bytes of the
    text), timestamps and durations by [Z] (whole milliseconds, which a
    JavaScript number holds exactly), the storage areas of the browser by
    records and finite maps.  Every handler is a function in a
    state-and-exception monad over the [World], which also keeps the calls
    made to the browser in the order they are issued.  A handler first runs
    its synchronous part and then the callbacks it registered, in their
    order: this is what happens when no other event comes in between. *)

From Stdlib Require Import ZArith Ascii String List Lia.
From stdpp Require Import base option list sorting gmap strings.

Local Open Scope string_scope.
Local Open Scope list_scope.

(** * JavaScript primitives used by the scripts *)

Module JS.

(** ** Numbers

    [Date.now()] and the durations handled by the timer are integers;
    [NaN] is what arithmetic on [undefined] yields. *)

Inductive number : Type :=
| Num (z : Z)
| NaN.

(** [ToNumber] on a property read: an absent property reads [undefined]. *)
Definition ToNumber (v : option number) : number :=
  match v with
  | Some n => n
  | None => NaN
  end.

Definition add (a b : number) : number :=
  match a, b with
  | Num x, Num y => Num (x + y)
  | _, _ => NaN
  end.

Definition sub (a b : number) : number :=
  match a, b with
  | Num x, Num y => Num (x - y)
  | _, _ => NaN
  end.

(** ** Strings and arrays *)

(** [!s] for a value that is a string or [undefined]. *)
Definition falsy (s : option string) : bool :=
  match s with
  | None => true
  | Some "" => true
  | Some _ => false
  end.

(** [s.startsWith(p)] *)
Definition startsWith (p s : string) : bool := String.prefix p s.

(** [a.includes(x)] on an array of strings. *)
Definition includes (x : string) (a : list string) : bool :=
  bool_decide (x ∈ a).

(** [a.push(x)] *)
Definition push {A} (x : A) (a : list A) : list A := a ++ [x].

(** [a.sort()] on an array of strings: ascending order of code units, which
    for the ASCII text of a hostname is the order of the bytes.  The order is
    total and antisymmetric, so the sorted array does not depend on the
    algorithm of the engine. *)
Definition sort (a : list string) : list string := merge_sort String.le a.

(** [a.splice(start, deleteCount)] for [start] within the array or at its
    end: the array without the removed elements. *)
Definition splice {A} (start deleteCount : nat) (a : list A) : list A :=
  take start a ++ drop (start + deleteCount) a.

(** ** [encodeURIComponent] *)

Definition in_range (lo hi c : ascii) : bool :=
  (nat_of_ascii lo <=? nat_of_ascii c)%nat && (nat_of_ascii c <=? nat_of_ascii hi)%nat.

(** The characters left alone: letters, digits and [- _ . ! ~ * ' ( )]. *)
Definition unescaped (c : ascii) : bool :=
  in_range "A" "Z" c || in_range "a" "z" c || in_range "0" "9" c
  || bool_decide (c ∈ ["-"; "_"; "."; "!"; "~"; "*"; "'"; "("; ")"]%char).

Definition hex_digit (n : nat) : ascii :=
  if (n <? 10)%nat then ascii_of_nat (48 + n) else ascii_of_nat (55 + n).

Definition escape (c : ascii) : string :=
  String "%" (String (hex_digit (nat_of_ascii c / 16))
               (String (hex_digit (nat_of_ascii c mod 16)) "")).

Fixpoint encodeURIComponent (s : string) : string :=
  match s with
  | "" => ""
  | String c s' =>
      (if unescaped c then String c "" else escape c) +:+ encodeURIComponent s'
  end.

(** ** [URLSearchParams] *)

Definition hex_value (c : ascii) : option nat :=
  if in_range "0" "9" c then Some (nat_of_ascii c - 48)
  else if in_range "A" "F" c then Some (nat_of_ascii c - 55)
  else if in_range "a" "f" c then Some (nat_of_ascii c - 87)
  else None.

(** Percent-decoding: a [%] that two hexadecimal digits do not follow is
    kept. *)
Fixpoint percent_decode (s : string) : string :=
  match s with
  | "" => ""
  | String c s' =>
      match (if Ascii.eqb c "%" then
               match s' with
               | String h (String l rest) =>
                   match hex_value h, hex_value l with
                   | Some a, Some b =>
                       Some (String (ascii_of_nat (16 * a + b)) (percent_decode rest))
                   | _, _ => None
                   end
               | _ => None
               end
             else None) with
      | Some r => r
      | None => String c (percent_decode s')
      end
  end.

(** The form decoder replaces [+] by a space before percent-decoding. *)
Fixpoint plus_to_space (s : string) : string :=
  match s with
  | "" => ""
  | String c s' => String (if Ascii.eqb c "+" then " "%char else c) (plus_to_space s')
  end.

(** [split_at d s]: the text before the first [d] and, when there is one,
    the text after it. *)
Fixpoint split_at (d : ascii) (s : string) : string * option string :=
  match s with
  | "" => ("", None)
  | String c s' =>
      if Ascii.eqb c d then ("", Some s')
      else let '(a, b) := split_at d s' in (String c a, b)
  end.

(** The sequences between [&]. *)
Fixpoint split_all (fuel : nat) (d : ascii) (s : string) : list string :=
  match fuel with
  | O => [s]
  | S fuel' =>
      match split_at d s with
      | (a, None) => [a]
      | (a, Some rest) => a :: split_all fuel' d rest
      end
  end.

Definition parse_pair (p : string) : string * string :=
  let '(name, value) := split_at "=" p in
  (percent_decode (plus_to_space name),
   percent_decode (plus_to_space (default "" value))).

(** [new URLSearchParams(search)]: the leading [?] is dropped, empty
    sequences are skipped. *)
Definition URLSearchParams (search : string) : list (string * string) :=
  let query := match search with
               | String "?" q => q
               | _ => search
               end in
  parse_pair <$> filter (λ p, p ≠ "") (split_all (String.length query) "&" query).

(** [window.location.search] of a page at [href]: the query, from its [?]
    to the fragment, or the empty string when the query is empty. *)
Definition location_search (href : string) : string :=
  match split_at "?" (split_at "#" href).1 with
  | (_, Some query) => if bool_decide (query = "") then "" else String "?" query
  | (_, None) => ""
  end.

(** [params.get(name)]: the first value under [name], or [null]. *)
Definition URLSearchParams_get (name : string) (ps : list (string * string))
  : option string :=
  (λ found, found.2.2) <$> list_find (λ p, p.1 = name) ps.

(** ** Auxiliary definitions for the proofs about the encoding *)

(** What [encodeURIComponent] writes for one character. *)
Definition encoded (c : ascii) : string :=
  if unescaped c then String c "" else escape c.

(** The characters with a meaning in a URL or in a query. *)
Definition special : list ascii := ["%"; "&"; "="; "+"; "#"; "?"]%char.

(** A character that the decoders and the splitting read as it is. *)
Definition plain (a : ascii) : bool :=
  forallb (λ d, negb (Ascii.eqb a d)) special.

(** [s] has no character [d]. *)
Definition lacks (d : ascii) (s : string) : Prop := split_at d s = (s, None).

(** Every character of [s] satisfies [P]. *)
Fixpoint all_chars (P : ascii → bool) (s : string) : bool :=
  match s with
  | "" => true
  | String c s' => P c && all_chars P s'
  end.

(** [encoded c] is [c] itself, plain, or [%] and the two hexadecimal digits
    of [c]. *)
Definition encoded_ok (c : ascii) : bool :=
  match encoded c with
  | String a "" => Ascii.eqb a c && plain a
  | String p (String h (String l "")) =>
      Ascii.eqb p "%" && plain h && plain l &&
      match hex_value h, hex_value l with
      | Some x, Some y => Ascii.eqb (ascii_of_nat (16 * x + y)) c
      | _, _ => false
      end
  | _ => false
  end.

End JS.

(** * The host: what the browser provides *)

(** The part of a parsed URL that the scripts read. *)
Record URL : Type := mkURL {
  protocol : string;
  hostname : string;
}.

(** The host fixes the URL parser behind [new URL(s)] ([None] when the
    constructor throws, as it does on the empty string) and the identifier
    of the installed extension, made of the letters [a] to [p]. *)
Class Host : Type := {
  URL_new : string → option URL;
  extension_id : string;
  URL_new_empty : URL_new "" = None;
  extension_id_letters : JS.all_chars (JS.in_range "a" "p") extension_id = true;
}.

(** [chrome.runtime.getURL(path)] *)
Definition getURL `{Host} (path : string) : string :=
  "chrome-extension://" +:+ extension_id +:+ "/" +:+ path.

(** ** Tabs and tab groups *)

Record Tab : Type := mkTab {
  tab_id : nat;
  tab_windowId : nat;
  tab_url : option string;
  tab_title : option string;
  tab_groupId : option nat;
}.

Record Group : Type := mkGroup {
  group_title : string;
  group_color : string;
  group_windowId : nat;
}.

(** ** Storage areas *)

(** An entry of [distractingTabs]. *)
Record TabInfo : Type := mkTabInfo {
  info_url : string;
  info_title : option string;
}.

(** [chrome.storage.sync]: the registry. *)
Record SyncStorage : Type := mkSync {
  distractingDomains : option (list string);
  distractingTabs : option (list TabInfo);
}.

(** Values as the task page stores them. *)
#[warnings="-register-all"]
Inductive value : Type :=
| Undefined
| Null
| Bool (b : bool)
| Number (z : Z)
| Str (s : string)
| Array (items : list value)
| Object (props : list (string * value)).

(** [chrome.storage.local]: the timer, the PIN and the task list. *)
Record LocalStorage : Type := mkLocal {
  StartingTime : option JS.number;
  RemainingTime : option JS.number;
  unlockPin : option string;
  tasks : option (list value);
}.

(** ** Calls to the browser API, in the order they are issued *)

Inductive area : Type := sync_area | local_area | session_area.

Inductive call : Type :=
| storage_get (a : area) (keys : list string)
| storage_set (a : area) (key : string)
| tabs_update (tabId : nat) (url : string)
| tabs_group (tabId : nat) (groupId : option nat)
| tabGroups_update (groupId : nat)
| alarms_create (name : string) (when : JS.number)
| alarms_clear (name : string)
| windows_create (url : string).

(** ** The world *)

Record World : Type := mkWorld {
  sync : SyncStorage;
  local : LocalStorage;
  session : gmap string bool;
  alarms : gmap string JS.number;
  tabs : gmap nat Tab;
  groups : gmap nat Group;
  popups : list string;
  calls : list call;
}.

Definition set_sync (f : SyncStorage → SyncStorage) (w : World) : World :=
  mkWorld (f (sync w)) (local w) (session w) (alarms w) (tabs w) (groups w)
    (popups w) (calls w).
Definition set_local (f : LocalStorage → LocalStorage) (w : World) : World :=
  mkWorld (sync w) (f (local w)) (session w) (alarms w) (tabs w) (groups w)
    (popups w) (calls w).
Definition set_session (f : gmap string bool → gmap string bool) (w : World) : World :=
  mkWorld (sync w) (local w) (f (session w)) (alarms w) (tabs w) (groups w)
    (popups w) (calls w).
Definition set_alarms (f : gmap string JS.number → gmap string JS.number) (w : World)
  : World :=
  mkWorld (sync w) (local w) (session w) (f (alarms w)) (tabs w) (groups w)
    (popups w) (calls w).
Definition set_tabs (f : gmap nat Tab → gmap nat Tab) (w : World) : World :=
  mkWorld (sync w) (local w) (session w) (alarms w) (f (tabs w)) (groups w)
    (popups w) (calls w).
Definition set_groups (f : gmap nat Group → gmap nat Group) (w : World) : World :=
  mkWorld (sync w) (local w) (session w) (alarms w) (tabs w) (f (groups w))
    (popups w) (calls w).
Definition set_popups (f : list string → list string) (w : World) : World :=
  mkWorld (sync w) (local w) (session w) (alarms w) (tabs w) (groups w)
    (f (popups w)) (calls w).
Definition set_calls (f : list call → list call) (w : World) : World :=
  mkWorld (sync w) (local w) (session w) (alarms w) (tabs w) (groups w)
    (popups w) (f (calls w)).

(** * The monad of handlers: state and exceptions *)

Inductive outcome (A : Type) : Type :=
| Returned (a : A)
| Thrown.
Arguments Returned {A} a.
Arguments Thrown {A}.

Definition M (A : Type) : Type := World → outcome A * World.

Definition ret {A} (a : A) : M A := λ w, (Returned a, w).
Definition throw {A} : M A := λ w, (Thrown, w).
Definition bind {A B} (m : M A) (k : A → M B) : M B :=
  λ w, match m w with
       | (Returned a, w') => k a w'
       | (Thrown, w') => (Thrown, w')
       end.
(** [try { m } catch (error) { h }]: what [m] did before it threw stays. *)
Definition try_catch {A} (m : M A) (h : M A) : M A :=
  λ w, match m w with
       | (Returned a, w') => (Returned a, w')
       | (Thrown, w') => h w'
       end.
Definition gets {A} (f : World → A) : M A := λ w, (Returned (f w), w).
Definition modify (f : World → World) : M unit := λ w, (Returned tt, f w).
Definition issue (c : call) : M unit := modify (set_calls (λ l, l ++ [c])).

Notation "'do' x <- m ; k" := (bind m (λ x, k))
  (at level 10, x name, m at level 100, k at level 200).
Notation "m ;; k" := (bind m (λ _, k))
  (at level 100, k at level 200, right associativity).

(** The world a handler leaves behind. *)
Definition exec {A} (m : M A) (w : World) : World := (m w).2.

(** [keeps proj post m]: [m] leaves the part [proj] of the world as it is,
    and what it returns satisfies [post]. *)
Definition keeps {S : Type} (proj : World → S) {A : Type} (post : A → Prop) (m : M A)
  : Prop :=
  ∀ w, proj (m w).2 = proj w ∧
       match (m w).1 with
       | Returned a => post a
       | Thrown => True
       end.

(** Callbacks that the browser runs once the handler has returned. *)
Fixpoint run_callbacks (cbs : list (M unit)) : M unit :=
  match cbs with
  | [] => ret tt
  | cb :: cbs' => cb ;; run_callbacks cbs'
  end.

(** * The browser API *)

Section ServiceWorker.
Context `{Host}.

(** [chrome.storage.sync.get([key], callback)]: the call yields the stored
    value, which the callback receives. *)
Definition sync_get_distractingDomains : M (option (list string)) :=
  issue (storage_get sync_area ["distractingDomains"]) ;;
  gets (λ w, distractingDomains (sync w)).

Definition sync_set_distractingDomains (domains : list string) : M unit :=
  issue (storage_set sync_area "distractingDomains") ;;
  modify (set_sync (λ s, mkSync (Some domains) (distractingTabs s))).

Definition sync_get_distractingTabs : M (option (list TabInfo)) :=
  issue (storage_get sync_area ["distractingTabs"]) ;;
  gets (λ w, distractingTabs (sync w)).

Definition sync_set_distractingTabs (l : list TabInfo) : M unit :=
  issue (storage_set sync_area "distractingTabs") ;;
  modify (set_sync (λ s, mkSync (distractingDomains s) (Some l))).

Definition session_get (key : string) : M (option bool) :=
  issue (storage_get session_area [key]) ;;
  gets (λ w, session w !! key).

Definition session_set (key : string) (b : bool) : M unit :=
  issue (storage_set session_area key) ;;
  modify (set_session (λ m, <[key := b]> m)).

(** [chrome.tabGroups.query({ title, windowId })] *)
Definition tabGroups_query (title : string) (windowId : nat) : M (list (nat * Group)) :=
  gets (λ w, filter (λ g, group_title g.2 = title ∧ group_windowId g.2 = windowId)
               (map_to_list (groups w))).

(** [chrome.tabs.group({ tabIds: [tabId], groupId })]: rejects when the tab
    (or the group) is gone; without [groupId] a group is created in the
    window of the tab. *)
Definition chrome_tabs_group (tabId : nat) (groupId : option nat) : M nat :=
  issue (tabs_group tabId groupId) ;;
  do w <- gets (λ w, w);
  match tabs w !! tabId with
  | None => throw
  | Some t =>
      let move g :=
        set_tabs (λ m, <[tabId := mkTab (tab_id t) (tab_windowId t) (tab_url t)
                                     (tab_title t) (Some g)]> m) in
      match groupId with
      | None =>
          let g := fresh (dom (groups w)) in
          modify (set_groups (λ m, <[g := mkGroup "" "grey" (tab_windowId t)]> m)) ;;
          modify (move g) ;;
          ret g
      | Some g =>
          match groups w !! g with
          | None => throw
          | Some _ => modify (move g) ;; ret g
          end
      end
  end.

(** [chrome.tabGroups.update(groupId, { title, color })] *)
Definition chrome_tabGroups_update (groupId : nat) (title color : string) : M unit :=
  issue (tabGroups_update groupId) ;;
  do gs <- gets groups;
  match gs !! groupId with
  | None => throw
  | Some g =>
      modify (set_groups (λ m, <[groupId := mkGroup title color (group_windowId g)]> m))
  end.

(** [chrome.tabs.update(tabId, { url })] *)
Definition chrome_tabs_update (tabId : nat) (url : string) : M unit :=
  issue (tabs_update tabId url) ;;
  modify (set_tabs (λ m, alter (λ t, mkTab (tab_id t) (tab_windowId t) (Some url)
                                      (tab_title t) (tab_groupId t)) tabId m)).

(** * [tabManager.js]: grouping and the registry *)

Definition DISTRACTING : string * string := ("Distracting", "red").
Definition PRODUCTIVE : string * string := ("Productive", "green").

(** The synchronous part returns the callback of the storage read. *)
Definition saveDomainAsDistracting (urlString : option string) : M (M unit) :=
  match urlString with
  | None => ret (ret tt)
  | Some u =>
      if JS.falsy urlString || negb (JS.startsWith "http" u) then ret (ret tt)
      else
        match URL_new u with
        | None => throw
        | Some url =>
            let domain := hostname url in
            do result <- sync_get_distractingDomains;
            ret (let domains := default [] result in
                 if negb (JS.includes domain domains) then
                   sync_set_distractingDomains (JS.sort (JS.push domain domains))
                 else ret tt)
        end
  end.

Definition deleteDomainFromDistracting (domain : string) : M (M unit) :=
  do result <- sync_get_distractingDomains;
  ret (let domains := default [] result in
       sync_set_distractingDomains (filter (λ d, d ≠ domain) domains)).

Definition isDomainDistracting (domain : string) : M bool :=
  do result <- sync_get_distractingDomains;
  ret (JS.includes domain (default [] result)).

Definition saveTabAsDistracting (tab : Tab) : M (M unit) :=
  match tab_url tab with
  | None => ret (ret tt)
  | Some u =>
      if JS.falsy (tab_url tab) || negb (JS.startsWith "http" u) then ret (ret tt)
      else
        let newTabInfo := mkTabInfo u (tab_title tab) in
        do result <- sync_get_distractingTabs;
        ret (let saved := default [] result in
             let isAlreadySaved :=
               existsb (λ savedTab, String.eqb (info_url savedTab) (info_url newTabInfo))
                 saved in
             if negb isAlreadySaved then
               sync_set_distractingTabs (JS.push newTabInfo saved)
             else ret tt)
  end.

Definition deleteTabFromDistracting (tab : Tab) : M (M unit) :=
  do result <- sync_get_distractingTabs;
  ret (let saved := default [] result in
       sync_set_distractingTabs
         (filter (λ savedTab, Some (info_url savedTab) ≠ tab_url tab) saved)).

(** The part of [groupTab] that assigns the tab to its group. *)
Definition assign_group (tab : Tab) (groupTitle groupColor : string) : M unit :=
  do existingGroups <- tabGroups_query groupTitle (tab_windowId tab);
  do groupId <-
    match existingGroups with
    | g :: _ => ret g.1
    | [] =>
        do newGroupId <- chrome_tabs_group (tab_id tab) None;
        chrome_tabGroups_update newGroupId groupTitle groupColor ;;
        ret newGroupId
    end;
  chrome_tabs_group (tab_id tab) (Some groupId) ;;
  ret tt.

Definition groupTab (tab : Tab) (isProductive : bool) : M unit :=
  let groupInfo := if isProductive then PRODUCTIVE else DISTRACTING in
  let groupTitle := groupInfo.1 in
  let groupColor := groupInfo.2 in
  do pending <-
    try_catch
      (assign_group tab groupTitle groupColor ;;
       (* If the tab is marked as distracting, save its domain and its info. *)
       if negb isProductive then
         do cb1 <- saveDomainAsDistracting (tab_url tab);
         do cb2 <- saveTabAsDistracting tab;
         ret [cb1; cb2]
       else ret [])
      (ret []);
  run_callbacks pending.

Inductive menuItem : Type := markProductive | markDistracting | otherItem.

(** [chrome.contextMenus.onClicked]: [chrome.tabs.get(tab.id)] rejects when
    the tab was closed in the meantime. *)
Definition onClicked (menuItemId : menuItem) (tab : Tab) : M unit :=
  try_catch
    (do open <- gets tabs;
     match open !! tab_id tab with
     | None => throw
     | Some _ =>
         match menuItemId with
         | markProductive => groupTab tab true
         | markDistracting => groupTab tab false
         | otherItem => ret tt
         end
     end)
    (ret tt).

(** * [tabManager.js]: the lock gate *)

Definition lock_url (original : string) : string :=
  getURL "html/locked.html" +:+ "?url=" +:+ JS.encodeURIComponent original.

(** [chrome.tabs.onActivated]: reading [tab.url] of a tab that is gone
    throws. *)
Definition onActivated (tabId : nat) : M unit :=
  do open <- gets tabs;
  match open !! tabId with
  | None => throw
  | Some tab =>
      match tab_url tab with
      | None => ret tt
      | Some u =>
          if JS.falsy (tab_url tab) then ret tt
          else
            match URL_new u with
            | None => throw
            | Some url =>
                let domain := hostname url in
                if String.eqb (protocol url) "chrome-extension:" then ret tt
                else
                  do isDistracting <- isDomainDistracting domain;
                  if negb isDistracting then ret tt
                  else
                    let sessionKey := "unlocked_" +:+ domain in
                    do sessionResult <- session_get sessionKey;
                    if default false sessionResult then ret tt
                    else chrome_tabs_update (tab_id tab) (lock_url u)
            end
      end
  end.

End ServiceWorker.

(** * [tabManager.js]: the countdown timer *)

Module Timer.

Definition alarm_name : string := "LockedInSession".

Inductive message : Type :=
| START_TIMER (duration : JS.number)
| PAUSE_TIMER
| CONTINUE_TIMER
| other_message.

Definition local_get_timer : M (option JS.number * option JS.number) :=
  issue (storage_get local_area ["StartingTime"; "RemainingTime"]) ;;
  gets (λ w, (StartingTime (local w), RemainingTime (local w))).

Definition local_get_RemainingTime : M (option JS.number) :=
  issue (storage_get local_area ["RemainingTime"]) ;;
  gets (λ w, RemainingTime (local w)).

Definition local_set_StartingTime (t : JS.number) : M unit :=
  issue (storage_set local_area "StartingTime") ;;
  modify (set_local (λ l, mkLocal (Some t) (RemainingTime l) (unlockPin l) (tasks l))).

Definition local_set_RemainingTime (t : JS.number) : M unit :=
  issue (storage_set local_area "RemainingTime") ;;
  modify (set_local (λ l, mkLocal (StartingTime l) (Some t) (unlockPin l) (tasks l))).

(** [chrome.alarms.create(name, { when })] replaces the alarm of that name. *)
Definition chrome_alarms_create (name : string) (when : JS.number) : M unit :=
  issue (alarms_create name when) ;;
  modify (set_alarms (λ m, <[name := when]> m)).

Definition chrome_alarms_clear (name : string) : M unit :=
  issue (alarms_clear name) ;;
  modify (set_alarms (λ m, delete name m)).

(** [chrome.runtime.onMessage]: [now1] and [now2] are the values of the
    first and of the second evaluation of [Date.now()] that the message
    causes (PAUSE has only one).  The storage reads of PAUSE and CONTINUE
    hand their result to a callback; [sendResponse()] changes nothing. *)
Definition onMessage (m : message) (now1 now2 : Z) : M unit :=
  do pending <-
    match m with
    | START_TIMER duration =>
        chrome_alarms_create alarm_name (JS.add (JS.Num now1) duration) ;;
        local_set_StartingTime (JS.Num now2) ;;
        ret []
    | PAUSE_TIMER =>
        chrome_alarms_clear alarm_name ;;
        do data <- local_get_timer;
        ret [ let elapsedTime := JS.sub (JS.Num now1) (JS.ToNumber data.1) in
              local_set_RemainingTime (JS.sub (JS.ToNumber data.2) elapsedTime) ]
    | CONTINUE_TIMER =>
        do data <- local_get_RemainingTime;
        ret [ chrome_alarms_create alarm_name (JS.add (JS.Num now1) (JS.ToNumber data)) ;;
              local_set_StartingTime (JS.Num now2) ]
    | other_message => ret []
    end;
  run_callbacks pending.

(** [chrome.alarms.onAlarm] *)
Definition onAlarm (name : string) : M unit :=
  if String.eqb name alarm_name then
    issue (windows_create "../html/alert.html") ;;
    modify (set_popups (λ l, l ++ ["../html/alert.html"]))
  else ret tt.

(** A timer command together with the clock readings it makes. *)
Record command : Type := mkCommand {
  cmd_message : message;
  cmd_now1 : Z;
  cmd_now2 : Z;
}.

Definition step (c : command) (w : World) : World :=
  exec (onMessage (cmd_message c) (cmd_now1 c) (cmd_now2 c)) w.

Definition run (cs : list command) (w : World) : World :=
  foldl (λ w c, step c w) w cs.

(** The persisted [RemainingTime] is a number that is not negative. *)
Definition remaining_nonneg (w : World) : Prop :=
  ∃ r, RemainingTime (local w) = Some (JS.Num r) ∧ (0 ≤ r)%Z.

(** A PAUSE is timely when it comes no later than the expiry: the time
    elapsed since [StartingTime] does not exceed [RemainingTime]. *)
Definition timely (c : command) (w : World) : Prop :=
  cmd_message c = PAUSE_TIMER →
  ∃ s r, StartingTime (local w) = Some (JS.Num s) ∧
         RemainingTime (local w) = Some (JS.Num r) ∧
         (cmd_now1 c - s ≤ r)%Z.

Fixpoint all_timely (cs : list command) (w : World) : Prop :=
  match cs with
  | [] => True
  | c :: cs' => timely c w ∧ all_timely cs' (step c w)
  end.

Definition START (duration now : Z) : command :=
  mkCommand (START_TIMER (JS.Num duration)) now now.
Definition PAUSE (now : Z) : command := mkCommand PAUSE_TIMER now now.
Definition CONTINUE (now : Z) : command := mkCommand CONTINUE_TIMER now now.

End Timer.

(** * The lock page *)

Section LockPage.
Context `{Host}.

(** The page: the constant [targetUrl] of the script, the location, and
    the two elements that the script writes. *)
Record LockPage : Type := mkLockPage {
  targetUrl : option string;
  location_href : string;
  pinInput_value : string;
  errorMessage_textContent : string;
}.

(** The handler of [DOMContentLoaded] on the page loaded at [href]:
    [targetUrl] is [urlParams.get('url')]. *)
Definition DOMContentLoaded (href : string) : LockPage :=
  mkLockPage
    (JS.URLSearchParams_get "url" (JS.URLSearchParams (JS.location_search href)))
    href "" "".

Definition local_get_unlockPin : M (option string) :=
  issue (storage_get local_area ["unlockPin"]) ;;
  gets (λ w, unlockPin (local w)).

(** The click handler of the unlock button; [new URL(null)] throws. *)
Definition unlock_click (page : LockPage) : M LockPage :=
  let enteredPin := pinInput_value page in
  do stored <- local_get_unlockPin;
  if bool_decide (Some enteredPin = stored) then
    match targetUrl page with
    | None => throw
    | Some target =>
        match URL_new target with
        | None => throw
        | Some url =>
            let domain := hostname url in
            let sessionKey := "unlocked_" +:+ domain in
            session_set sessionKey true ;;
            ret (mkLockPage (targetUrl page) target (pinInput_value page)
                   (errorMessage_textContent page))
        end
    end
  else
    ret (mkLockPage (targetUrl page) (location_href page) ""
           "Incorrect PIN. Please try again.").

(** The page after the click: unchanged when the handler threw. *)
Definition page_after (page : LockPage) (r : outcome LockPage) : LockPage :=
  match r with
  | Returned page' => page'
  | Thrown => page
  end.

(** The user types [pin] in the input. *)
Definition type_pin (pin : string) (page : LockPage) : LockPage :=
  mkLockPage (targetUrl page) (location_href page) pin (errorMessage_textContent page).

(** A series of attempts, each with the PIN typed before the click. *)
Fixpoint attempts (pins : list string) (page : LockPage) (w : World)
  : LockPage * World :=
  match pins with
  | [] => (page, w)
  | pin :: pins' =>
      let typed := type_pin pin page in
      let '(r, w') := unlock_click typed w in
      attempts pins' (page_after typed r) w'
  end.

End LockPage.

(** * [task.js]: the task list page *)

Module Tasks.

(** Instances of the two classes, with the fields the constructors set. *)
Inductive task : Type :=
| Task (text subtasks : value)
| TimedTask (text subtasks deadline : value).

Definition text_of (t : task) : value :=
  match t with
  | Task text _ | TimedTask text _ _ => text
  end.

Definition subtasks_of (t : task) : value :=
  match t with
  | Task _ subtasks | TimedTask _ subtasks _ => subtasks
  end.

(** [new Task(text, subtasks)] and [new TimedTask(text, subtasks, deadline)]:
    a default takes the place of an argument that is [undefined]. *)
Definition or_default (d v : value) : value :=
  match v with
  | Undefined => d
  | _ => v
  end.

Definition new_Task (text subtasks : value) : task :=
  Task text (or_default (Array []) subtasks).

Definition new_TimedTask (text subtasks deadline : value) : task :=
  TimedTask text (or_default (Array []) subtasks) (or_default (Str "") deadline).

(** The own properties of an instance, in the order of their creation. *)
Definition properties (t : task) : value :=
  match t with
  | Task text subtasks => Object [("text", text); ("subtasks", subtasks)]
  | TimedTask text subtasks deadline =>
      Object [("text", text); ("subtasks", subtasks); ("deadline", deadline)]
  end.

(** What the storage keeps of a value: a property that is [undefined] is
    left out, an array element that is [undefined] becomes [null]. *)
Fixpoint stored (v : value) : value :=
  match v with
  | Array items =>
      Array (map (λ x, match x with
                       | Undefined => Null
                       | _ => stored x
                       end) items)
  | Object props =>
      Object ((fix go (ps : list (string * value)) : list (string * value) :=
                 match ps with
                 | [] => []
                 | (k, x) :: ps' =>
                     match x with
                     | Undefined => go ps'
                     | _ => (k, stored x) :: go ps'
                     end
                 end) props)
  | _ => v
  end.

(** The value of the property [k] of an object literal. *)
Fixpoint assoc (k : string) (props : list (string * value)) : option value :=
  match props with
  | [] => None
  | (k', v) :: props' => if String.eqb k' k then Some v else assoc k props'
  end.

(** [t.k]: reading a property of [null] or [undefined] throws ([None]); a
    property that is not there reads [undefined]. *)
Definition get_prop (k : string) (t : value) : option value :=
  match t with
  | Undefined | Null => None
  | Object props => Some (default Undefined (assoc k props))
  | _ => Some Undefined
  end.

Definition is_undefined (v : value) : bool :=
  match v with
  | Undefined => true
  | _ => false
  end.

(** The page: the global [taskData]. *)
Definition taskData : Type := list task.

(** [SaveTasks()] *)
Definition SaveTasks (data : taskData) : M unit :=
  issue (storage_set local_area "tasks") ;;
  modify (set_local (λ l, mkLocal (StartingTime l) (RemainingTime l) (unlockPin l)
                            (Some ((λ t, stored (properties t)) <$> data)))).

(** The function mapped over [result.tasks] in [init]. *)
Definition restore_one (t : value) : option task :=
  deadline ← get_prop "deadline" t;
  text ← get_prop "text" t;
  subtasks ← get_prop "subtasks" t;
  if negb (is_undefined deadline) then Some (new_TimedTask text subtasks deadline)
  else Some (new_Task text subtasks).

(** The restore of [init]: the new [taskData]. *)
Definition restore : M taskData :=
  issue (storage_get local_area ["tasks"]) ;;
  do result <- gets (λ w, tasks (local w));
  match mapM restore_one (default [] result) with
  | Some data => ret data
  | None => throw
  end.

(** The click handlers of the two add buttons; [taskText] is the trimmed
    text of the input. *)
Definition add_task (taskText : string) (data : taskData) : M taskData :=
  if String.eqb taskText "" then ret data
  else
    let data' := JS.push (new_Task (Str taskText) Undefined) data in
    SaveTasks data' ;; ret data'.

Definition add_timed_task (taskText : string) (data : taskData) : M taskData :=
  if String.eqb taskText "" then ret data
  else
    let data' := JS.push (new_TimedTask (Str taskText) Undefined Undefined) data in
    SaveTasks data' ;; ret data'.

(** The click handler of the remove button rendered for index [tIndex]. *)
Definition remove_task (tIndex : nat) (data : taskData) : M taskData :=
  let data' := JS.splice tIndex 1 data in
  SaveTasks data' ;; ret data'.

(** A task as the page builds it: texts are strings, subtasks are objects
    with a [text]. *)
Definition subtask (txt : string) : value := Object [("text", Str txt)].

Inductive built : task → Prop :=
| built_Task (text : string) (subs : list string) :
    built (Task (Str text) (Array (subtask <$> subs)))
| built_TimedTask (text : string) (subs : list string) (deadline : string) :
    built (TimedTask (Str text) (Array (subtask <$> subs)) (Str deadline)).

(** ** The handlers that change a task in place

    Each handler is rendered for the task at [tIndex] (and the subtask at
    [sIndex]) of the current [taskData]; for an index without a rendered
    element there is no handler, and nothing happens. *)

Definition set_text (text : value) (t : task) : task :=
  match t with
  | Task _ subtasks => Task text subtasks
  | TimedTask _ subtasks deadline => TimedTask text subtasks deadline
  end.

Definition set_subtasks (subtasks : value) (t : task) : task :=
  match t with
  | Task text _ => Task text subtasks
  | TimedTask text _ deadline => TimedTask text subtasks deadline
  end.

(** [o.k = v] on an object literal: the property keeps its place, a new
    one comes last. *)
Fixpoint set_prop (k : string) (v : value) (props : list (string * value))
  : list (string * value) :=
  match props with
  | [] => [(k, v)]
  | (k', x) :: props' =>
      if String.eqb k' k then (k, v) :: props' else (k', x) :: set_prop k v props'
  end.

(** The [input] handler of the text of a task. *)
Definition edit_text (tIndex : nat) (text : string) (data : taskData) : M taskData :=
  match data !! tIndex with
  | None => ret data
  | Some task =>
      let data' := <[tIndex := set_text (Str text) task]> data in
      SaveTasks data' ;; ret data'
  end.

(** The [input] handler of the deadline, which only a [TimedTask] renders. *)
Definition edit_deadline (tIndex : nat) (deadline : string) (data : taskData)
  : M taskData :=
  match data !! tIndex with
  | Some (TimedTask text subtasks _) =>
      let data' := <[tIndex := TimedTask text subtasks (Str deadline)]> data in
      SaveTasks data' ;; ret data'
  | _ => ret data
  end.

(** The click handler of the [+] button of a task; [txt] is the trimmed
    text of its input.  [push] on something that is not an array throws. *)
Definition add_subtask (tIndex : nat) (txt : string) (data : taskData) : M taskData :=
  match data !! tIndex with
  | None => ret data
  | Some task =>
      if String.eqb txt "" then ret data
      else
        match subtasks_of task with
        | Array items =>
            let data' :=
              <[tIndex := set_subtasks (Array (JS.push (Object [("text", Str txt)]) items))
                            task]> data in
            SaveTasks data' ;; ret data'
        | _ => throw
        end
  end.

(** The click handler of the remove mark of a subtask. *)
Definition remove_subtask (tIndex sIndex : nat) (data : taskData) : M taskData :=
  match data !! tIndex with
  | None => ret data
  | Some task =>
      match subtasks_of task with
      | Array items =>
          let data' :=
            <[tIndex := set_subtasks (Array (JS.splice sIndex 1 items)) task]> data in
          SaveTasks data' ;; ret data'
      | _ => throw
      end
  end.

(** The [input] handler of the text of a subtask that is an object. *)
Definition edit_subtask (tIndex sIndex : nat) (text : string) (data : taskData)
  : M taskData :=
  match data !! tIndex with
  | None => ret data
  | Some task =>
      match subtasks_of task with
      | Array items =>
          match items !! sIndex with
          | Some (Object props) =>
              let items' := <[sIndex := Object (set_prop "text" (Str text) props)]> items in
              let data' := <[tIndex := set_subtasks (Array items') task]> data in
              SaveTasks data' ;; ret data'
          | Some _ => throw
          | None => ret data
          end
      | _ => throw
      end
  end.

(** What the user does on the page. *)
Inductive operation : Type :=
| AddTask (taskText : string)
| AddTimedTask (taskText : string)
| RemoveTask (tIndex : nat)
| EditText (tIndex : nat) (text : string)
| EditDeadline (tIndex : nat) (deadline : string)
| AddSubtask (tIndex : nat) (txt : string)
| EditSubtask (tIndex sIndex : nat) (text : string)
| RemoveSubtask (tIndex sIndex : nat).

Definition perform (op : operation) (data : taskData) : M taskData :=
  match op with
  | AddTask taskText => add_task taskText data
  | AddTimedTask taskText => add_timed_task taskText data
  | RemoveTask tIndex => remove_task tIndex data
  | EditText tIndex text => edit_text tIndex text data
  | EditDeadline tIndex deadline => edit_deadline tIndex deadline data
  | AddSubtask tIndex txt => add_subtask tIndex txt data
  | EditSubtask tIndex sIndex text => edit_subtask tIndex sIndex text data
  | RemoveSubtask tIndex sIndex => remove_subtask tIndex sIndex data
  end.


(** The index of the task that an operation changes in place. *)
Definition in_place (op : operation) : option nat :=
  match op with
  | AddTask _ | AddTimedTask _ | RemoveTask _ => None
  | EditText tIndex _ | EditDeadline tIndex _ | AddSubtask tIndex _
  | EditSubtask tIndex _ _ | RemoveSubtask tIndex _ => Some tIndex
  end.

(** The stored list is the one in memory. *)
Definition in_sync (data : taskData) (w : World) : Prop :=
  default [] (tasks (local w)) = (λ t, stored (properties t)) <$> data.

End Tasks.

(** * Events *)

Section Events.
Context `{Host}.

(** The domains of the registry. *)
Definition registry (w : World) : list string :=
  default [] (distractingDomains (sync w)).

(** The number of entries of an array that are [d]. *)
Definition occurrences (d : string) (l : list string) : nat :=
  length (filter (λ x, x = d) l).

(** The guard of the two save functions: no URL, or one that does not
    start with [http]. *)
Definition not_http (url : option string) : Prop :=
  url = None ∨ ∃ u, url = Some u ∧ JS.startsWith "http" u = false.

(** The array that the callback of [saveDomainAsDistracting] leaves for the
    domain [d] when it read [l]. *)
Definition marked (d : string) (l : list string) : list string :=
  if JS.includes d l then l else JS.sort (JS.push d l).

(** The session unlock recorded for the domain [d]. *)
Definition unlocked (d : string) (w : World) : bool :=
  default false (session w !! ("unlocked_" +:+ d)).

(** The redirects issued so far. *)
Definition redirects (w : World) : list (nat * string) :=
  omap (λ c, match c with
             | tabs_update tabId url => Some (tabId, url)
             | _ => None
             end) (calls w).

(** The storage calls issued so far. *)
Definition is_storage_call (c : call) : bool :=
  match c with
  | storage_get _ _ | storage_set _ _ => true
  | _ => false
  end.

Definition storage_calls (w : World) : list call :=
  filter (λ c, is_storage_call c = true) (calls w).

(** What can happen in a browser session: the events the scripts handle,
    and the user opening, closing and navigating tabs. *)
Inductive event : Type :=
| TabActivated (tabId : nat)
| MenuClicked (item : menuItem) (tab : Tab)
| TimerMessage (c : Timer.command)
| AlarmFired (name : string)
| UnlockClicked (page : LockPage)
| TabsChanged (open : gmap nat Tab).

Definition handle (e : event) (w : World) : World :=
  match e with
  | TabActivated tabId => exec (onActivated tabId) w
  | MenuClicked item tab => exec (onClicked item tab) w
  | TimerMessage c => Timer.step c w
  | AlarmFired name => exec (Timer.onAlarm name) w
  | UnlockClicked page => exec (unlock_click page) w
  | TabsChanged open => set_tabs (λ _, open) w
  end.

Definition session_run (es : list event) (w : World) : World :=
  foldl (λ w e, handle e w) w es.

End Events.

(** * Functions with a callback, run to their end *)

(** The synchronous part of a function and then the callback of its
    storage read. *)
Definition with_callback (m : M (M unit)) : M unit :=
  do cb <- m; cb.

(** The entries of [distractingTabs]. *)
Definition saved_tabs (w : World) : list TabInfo :=
  default [] (distractingTabs (sync w)).


(** The calls issued by a handler that started in [w] and ended in [w']. *)
Definition calls_since (w w' : World) : list call :=
  drop (length (calls w)) (calls w').

(** * A host for the examples *)

Module Example.

Definition lower (c : ascii) : ascii :=
  if JS.in_range "A" "Z" c then ascii_of_nat (nat_of_ascii c + 32) else c.

Fixpoint lowercase (s : string) : string :=
  match s with
  | "" => ""
  | String c s' => String (lower c) (lowercase s')
  end.

(** A parser for URLs of the form [scheme://host], [scheme://host/...],
    [scheme://host:port/...]; it rejects every other text. *)
Definition parse (s : string) : option URL :=
  match JS.split_at ":" s with
  | (scheme, Some (String "/" (String "/" rest))) =>
      let authority := (JS.split_at "#" (JS.split_at "?" (JS.split_at "/" rest).1).1).1 in
      let host := (JS.split_at ":" authority).1 in
      if bool_decide (scheme = "") || bool_decide (host = "") then None
      else Some (mkURL (lowercase scheme +:+ ":") (lowercase host))
  | _ => None
  end.

Definition host : Host := {|
  URL_new := parse;
  extension_id := "abcdefghijklmnopabcdefghijklmnop";
  URL_new_empty := eq_refl;
  extension_id_letters := eq_refl;
|}.

Definition no_sync : SyncStorage := mkSync None None.
Definition no_local : LocalStorage := mkLocal None None None None.

(** A profile right after the installation. *)
Definition fresh_world : World := mkWorld no_sync no_local ∅ ∅ ∅ ∅ [] [].

(** A profile in which a value of [RemainingTime] is stored. *)
Definition with_remaining (r : Z) (w : World) : World :=
  set_local (λ l, mkLocal (StartingTime l) (Some (JS.Num r)) (unlockPin l) (tasks l)) w.

(** A profile with a PIN, and one with a registry of domains. *)
Definition with_pin (pin : string) (w : World) : World :=
  set_local (λ l, mkLocal (StartingTime l) (RemainingTime l) (Some pin) (tasks l)) w.

Definition with_registry (domains : list string) (w : World) : World :=
  set_sync (λ s, mkSync (Some domains) (distractingTabs s)) w.

(** The lock page that the gate opens for [original], with [pin] typed in
    the input. *)
Definition typed_lock_page (original pin : string) : LockPage :=
  type_pin pin (DOMContentLoaded (@lock_url host original)).

Definition open_tab (id : nat) (url : string) (w : World) : World :=
  set_tabs (λ m, <[id := mkTab id 1 (Some url) (Some "a page") None]> m) w.

End Example.


(** * Properties of the JavaScript primitives *)

(** Moves a concatenation past the characters of a literal prefix. *)
Ltac push_append :=
  repeat match goal with
         | |- context [String ?c ?s +:+ ?t] =>
             change (String c s +:+ t) with (String c (s +:+ t))
         | |- context ["" +:+ ?t] => change ("" +:+ t) with t
         end.

Section JSProperties.
Import JS.

Lemma encodeURIComponent_cons (c : ascii) (s : string) :
  encodeURIComponent (String c s) = encoded c +:+ encodeURIComponent s.
Proof. reflexivity. Qed.

Lemma encoded_ok_all (c : ascii) : encoded_ok c = true.
Proof. destruct c as [[] [] [] [] [] [] [] []]; vm_compute; reflexivity. Qed.

Lemma plain_eqb (a d : ascii) :
  plain a = true → d ∈ special → Ascii.eqb a d = false.
Proof.
  unfold plain. rewrite forallb_forall. intros Hall Hd.
  apply negb_true_iff, Hall. by apply list_elem_of_In.
Qed.

Lemma special_not_percent (d : ascii) :
  d ∈ special → d ≠ "%"%char → Ascii.eqb "%" d = false.
Proof.
  intros Hd Hne. apply Ascii.eqb_neq. congruence.
Qed.

Lemma encoded_shape (c : ascii) :
  (encoded c = String c "" ∧ plain c = true) ∨
  (∃ h l x y, encoded c = String "%" (String h (String l "")) ∧
     plain h = true ∧ plain l = true ∧
     hex_value h = Some x ∧ hex_value l = Some y ∧
     ascii_of_nat (16 * x + y) = c).
Proof.
  pose proof (encoded_ok_all c) as Hok. unfold encoded_ok in Hok.
  destruct (encoded c) as [|a [|h [|l [|? ?]]]]; try discriminate.
  - apply andb_true_iff in Hok as [Ha Hplain].
    apply Ascii.eqb_eq in Ha. subst a. by left.
  - rewrite !andb_true_iff in Hok. destruct Hok as [[[Ha Hh] Hl] Hhex].
    apply Ascii.eqb_eq in Ha. subst a.
    destruct (hex_value h) as [x|] eqn:Hx; [|discriminate].
    destruct (hex_value l) as [y|] eqn:Hy; [|discriminate].
    apply Ascii.eqb_eq in Hhex. right. by exists h, l, x, y.
Qed.

Lemma percent_decode_encoded (c : ascii) (rest : string) :
  percent_decode (encoded c +:+ rest) = String c (percent_decode rest).
Proof.
  destruct (encoded_shape c) as [[-> Hc]|(h & l & x & y & -> & _ & _ & Hx & Hy & Hc)].
  - push_append. cbn -[Ascii.eqb].
    by rewrite (plain_eqb c "%") by (done || set_solver).
  - subst c. push_append. simpl. by rewrite Hx, Hy.
Qed.

Lemma plus_to_space_encoded (c : ascii) (rest : string) :
  plus_to_space (encoded c +:+ rest) = encoded c +:+ plus_to_space rest.
Proof.
  destruct (encoded_shape c) as [[-> Hc]|(h & l & x & y & -> & Hh & Hl & _)].
  - push_append. cbn -[Ascii.eqb].
    by rewrite (plain_eqb c "+") by (done || set_solver).
  - push_append. cbn -[Ascii.eqb]. change (Ascii.eqb "%" "+") with false.
    by rewrite (plain_eqb h "+"), (plain_eqb l "+") by (done || set_solver).
Qed.

Lemma split_at_app (d : ascii) (s1 s2 : string) :
  lacks d s1 →
  split_at d (s1 +:+ s2) = (s1 +:+ (split_at d s2).1, (split_at d s2).2).
Proof.
  unfold lacks. induction s1 as [|c s1 IH]; intros Hs1.
  - push_append. by destruct (split_at d s2).
  - push_append. cbn -[Ascii.eqb] in *.
    destruct (Ascii.eqb c d); [done|].
    destruct (split_at d s1) as [a b] eqn:Hsplit. simplify_eq.
    by rewrite IH.
Qed.

Lemma lacks_app (d : ascii) (s1 s2 : string) :
  lacks d s1 → lacks d s2 → lacks d (s1 +:+ s2).
Proof.
  intros H1 H2. unfold lacks. rewrite split_at_app by done. by rewrite H2.
Qed.

Lemma lacks_encoded (d c : ascii) :
  d ∈ special → d ≠ "%"%char → lacks d (encoded c).
Proof.
  intros Hd Hne. unfold lacks.
  destruct (encoded_shape c) as [[-> Hc]|(h & l & x & y & -> & Hh & Hl & _)].
  - cbn -[Ascii.eqb]. by rewrite (plain_eqb c d).
  - cbn -[Ascii.eqb].
    by rewrite (special_not_percent d), (plain_eqb h d), (plain_eqb l d).
Qed.

Lemma lacks_encodeURIComponent (d : ascii) (s : string) :
  d ∈ special → d ≠ "%"%char → lacks d (encodeURIComponent s).
Proof.
  intros Hd Hne. induction s as [|c s IH]; [done|].
  rewrite encodeURIComponent_cons. apply lacks_app; [by apply lacks_encoded | done].
Qed.

Lemma lacks_all_chars (P : ascii → bool) (d : ascii) (s : string) :
  P d = false → all_chars P s = true → lacks d s.
Proof.
  intros Hd. unfold lacks. induction s as [|c s IH]; [done|].
  cbn -[Ascii.eqb]. intros [Hc Hs]%andb_true_iff.
  destruct (Ascii.eqb c d) eqn:Hcd.
  - apply Ascii.eqb_eq in Hcd. congruence.
  - by rewrite IH.
Qed.

Lemma percent_decode_encodeURIComponent (s : string) :
  percent_decode (encodeURIComponent s) = s.
Proof.
  induction s as [|c s IH]; [done|].
  by rewrite encodeURIComponent_cons, percent_decode_encoded, IH.
Qed.

Lemma plus_to_space_encodeURIComponent (s : string) :
  plus_to_space (encodeURIComponent s) = encodeURIComponent s.
Proof.
  induction s as [|c s IH]; [done|].
  by rewrite encodeURIComponent_cons, plus_to_space_encoded, IH.
Qed.

(** The query parameter [url] carries the text given to
    [encodeURIComponent]. *)
Lemma URLSearchParams_get_url (original : string) :
  URLSearchParams_get "url"
    (URLSearchParams ("?url=" +:+ encodeURIComponent original)) = Some original.
Proof.
  unfold URLSearchParams_get, URLSearchParams. push_append. simpl.
  rewrite (lacks_encodeURIComponent "&") by (done || set_solver). simpl.
  by rewrite plus_to_space_encodeURIComponent, percent_decode_encodeURIComponent.
Qed.

End JSProperties.

(** * Properties of the countdown timer *)

Section TimerProperties.
Import Timer.

Lemma step_START (w : World) (d : JS.number) (t t' : Z) :
  step (mkCommand (START_TIMER d) t t') w =
  set_local (λ l, mkLocal (Some (JS.Num t')) (RemainingTime l) (unlockPin l) (tasks l))
    (set_calls (λ l, l ++ [storage_set local_area "StartingTime"])
       (set_alarms (λ m, <[alarm_name := JS.add (JS.Num t) d]> m)
          (set_calls (λ l, l ++ [alarms_create alarm_name (JS.add (JS.Num t) d)]) w))).
Proof. reflexivity. Qed.

Lemma step_PAUSE_local (w : World) (t t' : Z) :
  local (step (mkCommand PAUSE_TIMER t t') w) =
  mkLocal (StartingTime (local w))
    (Some (JS.sub (JS.ToNumber (RemainingTime (local w)))
             (JS.sub (JS.Num t) (JS.ToNumber (StartingTime (local w))))))
    (unlockPin (local w)) (tasks (local w)).
Proof. reflexivity. Qed.

Lemma step_PAUSE_alarms (w : World) (t t' : Z) :
  alarms (step (mkCommand PAUSE_TIMER t t') w) = delete alarm_name (alarms w).
Proof. reflexivity. Qed.

Lemma step_CONTINUE_local (w : World) (t t' : Z) :
  local (step (mkCommand CONTINUE_TIMER t t') w) =
  mkLocal (Some (JS.Num t')) (RemainingTime (local w)) (unlockPin (local w))
    (tasks (local w)).
Proof. reflexivity. Qed.

Lemma step_CONTINUE_alarms (w : World) (t t' : Z) :
  alarms (step (mkCommand CONTINUE_TIMER t t') w) =
  <[alarm_name := JS.add (JS.Num t) (JS.ToNumber (RemainingTime (local w)))]> (alarms w).
Proof. reflexivity. Qed.

Lemma step_other (w : World) (t t' : Z) :
  step (mkCommand other_message t t') w = w.
Proof. by destruct w. Qed.

(** Only PAUSE writes [RemainingTime]. *)
Lemma step_remaining (c : command) (w : World) :
  cmd_message c ≠ PAUSE_TIMER →
  RemainingTime (local (step c w)) = RemainingTime (local w).
Proof. destruct c as [[d| | |] t t']; intros Hne; try done; by destruct w. Qed.

Lemma step_nonneg (c : command) (w : World) :
  remaining_nonneg w → timely c w → remaining_nonneg (step c w).
Proof.
  intros (r & Hr & Hpos) Htimely.
  destruct c as [m t t']. destruct m as [d| | |].
  2:{ destruct (Htimely eq_refl) as (s & r' & Hs & Hr' & Hle). simpl in Hle.
      exists (r' - (t - s))%Z. rewrite step_PAUSE_local, Hs, Hr'. simpl.
      split; [done | lia]. }
  all: exists r; by rewrite step_remaining.
Qed.

Lemma all_timely_take (n : nat) (cs : list command) (w : World) :
  all_timely cs w → all_timely (take n cs) w.
Proof.
  revert n w. induction cs as [|c cs IH]; intros [|n] w; simpl; try done.
  intros [Hc Hcs]. split; [done | by apply IH].
Qed.

Lemma run_nonneg (cs : list command) (w : World) :
  remaining_nonneg w → all_timely cs w → remaining_nonneg (run cs w).
Proof.
  revert w. induction cs as [|c cs IH]; intros w Hw Hcs; [done|].
  destruct Hcs as [Hc Hcs]. simpl. apply IH; [by apply step_nonneg | done].
Qed.

(** C5. When [StartingTime] and [RemainingTime] are in storage, PAUSE clears
    the alarm and stores the old [RemainingTime] minus the time elapsed since
    [StartingTime]; nothing keeps the difference from going below zero, which
    it does as soon as more time has elapsed than was left. *)
Theorem pause_subtracts_elapsed (w : World) (s r now now' : Z) :
  StartingTime (local w) = Some (JS.Num s) →
  RemainingTime (local w) = Some (JS.Num r) →
  let w' := step (mkCommand PAUSE_TIMER now now') w in
  alarms w' = delete alarm_name (alarms w) ∧
  alarms w' !! alarm_name = None ∧
  RemainingTime (local w') = Some (JS.Num (r - (now - s))) ∧
  StartingTime (local w') = Some (JS.Num s) ∧
  ((r < now - s)%Z → ¬ remaining_nonneg w').
Proof.
  intros Hs Hr w'. subst w'.
  rewrite step_PAUSE_alarms, step_PAUSE_local, Hs, Hr. simpl.
  repeat split; try done.
  - apply lookup_delete_eq.
  - intros Hlt (r' & Hr' & Hpos).
    rewrite step_PAUSE_local, Hs, Hr in Hr'. simpl in Hr'. simplify_eq. lia.
Qed.

(** The conclusion of C5 at a PAUSE two seconds after the expiry. *)
Lemma pause_subtracts_elapsed_witness :
  let w := Timer.step (START 5000 1000) (Example.with_remaining 5000 Example.fresh_world) in
  let w' := Timer.step (PAUSE 8000) w in
  alarms w' = delete alarm_name (alarms w) ∧
  alarms w' !! alarm_name = None ∧
  RemainingTime (local w') = Some (JS.Num (5000 - (8000 - 1000))) ∧
  StartingTime (local w') = Some (JS.Num 1000) ∧
  ((5000 < 8000 - 1000)%Z → ¬ remaining_nonneg w').
Proof.
  exact (pause_subtracts_elapsed
           (Timer.step (START 5000 1000) (Example.with_remaining 5000 Example.fresh_world))
           1000 5000 8000 8000 eq_refl eq_refl).
Defined.

(** C1, as the code has it. START stores [StartingTime] and leaves
    [RemainingTime] as it finds it. When [r] is stored there, a PAUSE that
    follows leaves [r] minus the time between the two commands, which is [r]
    itself (5000 when that was stored) if no time passes, and a CONTINUE
    after it schedules the alarm [LockedInSession] at its own time plus that
    remaining time and stores its time as the new [StartingTime]. *)
Theorem start_pause_continue (w : World) (r d t0 t0' t1 t1' t2 t2' : Z) :
  RemainingTime (local w) = Some (JS.Num r) →
  let w1 := step (mkCommand (START_TIMER (JS.Num d)) t0 t0') w in
  let w2 := step (mkCommand PAUSE_TIMER t1 t1') w1 in
  let w3 := step (mkCommand CONTINUE_TIMER t2 t2') w2 in
  alarms w1 !! alarm_name = Some (JS.Num (t0 + d)) ∧
  StartingTime (local w1) = Some (JS.Num t0') ∧
  RemainingTime (local w1) = Some (JS.Num r) ∧
  alarms w2 !! alarm_name = None ∧
  RemainingTime (local w2) = Some (JS.Num (r - (t1 - t0'))) ∧
  (t1 = t0' → RemainingTime (local w2) = Some (JS.Num r)) ∧
  alarms w3 !! alarm_name = Some (JS.Num (t2 + (r - (t1 - t0')))) ∧
  StartingTime (local w3) = Some (JS.Num t2') ∧
  RemainingTime (local w3) = RemainingTime (local w2).
Proof.
  intros Hr w1 w2 w3.
  assert (Hr1 : RemainingTime (local w1) = Some (JS.Num r)).
  { subst w1. by rewrite step_remaining. }
  assert (Hs1 : StartingTime (local w1) = Some (JS.Num t0')) by done.
  assert (Hr2 : RemainingTime (local w2) = Some (JS.Num (r - (t1 - t0')))).
  { subst w2. rewrite step_PAUSE_local, Hs1, Hr1. done. }
  repeat split; try done.
  - subst w1. rewrite step_START. simpl. apply lookup_insert_eq.
  - subst w2. rewrite step_PAUSE_alarms. apply lookup_delete_eq.
  - intros ->. rewrite Hr2. do 2 f_equal. lia.
  - subst w3. rewrite step_CONTINUE_alarms, Hr2. simpl. apply lookup_insert_eq.
Qed.

(** C1 at START(5000) over a stored [RemainingTime] of 5000, PAUSE at the
    same instant and CONTINUE three seconds later. *)
Lemma start_pause_continue_witness :
  let w := Example.with_remaining 5000 Example.fresh_world in
  let w2 := Timer.run [START 5000 1000; PAUSE 1000] w in
  let w3 := Timer.step (CONTINUE 4000) w2 in
  RemainingTime (local w2) = Some (JS.Num 5000) ∧
  alarms w3 !! alarm_name = Some (JS.Num (4000 + (5000 - (1000 - 1000)))).
Proof.
  pose proof (start_pause_continue (Example.with_remaining 5000 Example.fresh_world)
                5000 5000 1000 1000 1000 1000 4000 4000 eq_refl) as Hw.
  simpl in Hw. destruct Hw as (_ & _ & _ & _ & _ & Hsame & Halarm & _).
  split; [exact (Hsame eq_refl) | exact Halarm].
Defined.

(** C1 fails as stated: START does not store [RemainingTime].  On a fresh
    profile START(5000) and a PAUSE at the same instant do not leave 5000,
    and over a value left by an earlier session (1200) they leave that
    value. *)
Lemma start_pause_not_5000 :
  RemainingTime (local (Timer.run [START 5000 1000; PAUSE 1000] Example.fresh_world))
    ≠ Some (JS.Num 5000) ∧
  RemainingTime (local (Timer.run [START 5000 1000; PAUSE 1000]
                          (Example.with_remaining 1200 Example.fresh_world)))
    = Some (JS.Num 1200).
Proof. split; [discriminate | reflexivity]. Qed.

(** C2, as the code has it. START and CONTINUE do not write
    [RemainingTime], and a PAUSE that comes no later than the expiry keeps
    it at or above zero: along every sequence of commands whose PAUSEs are
    all timely, [RemainingTime] is never negative. *)
Theorem remaining_nonneg_while_timely (cs : list command) (w : World) :
  remaining_nonneg w → all_timely cs w →
  ∀ n, remaining_nonneg (run (take n cs) w).
Proof.
  intros Hw Hcs n. apply run_nonneg; [done | by apply all_timely_take].
Qed.

(** C2 at START, PAUSE after two seconds, CONTINUE, PAUSE after one more. *)
Lemma remaining_nonneg_while_timely_witness :
  remaining_nonneg
    (Timer.run (take 4 [START 5000 0; PAUSE 2000; CONTINUE 10000; PAUSE 11000])
       (Example.with_remaining 5000 Example.fresh_world)).
Proof.
  apply (remaining_nonneg_while_timely
           [START 5000 0; PAUSE 2000; CONTINUE 10000; PAUSE 11000]
           (Example.with_remaining 5000 Example.fresh_world)).
  - exists 5000%Z. split; [reflexivity | lia].
  - simpl. repeat split; try discriminate.
    + intros _. exists 0%Z, 5000%Z. repeat split; simpl; lia.
    + intros _. exists 10000%Z, 3000%Z. repeat split; simpl; lia.
Defined.

(** C2 fails as stated: a PAUSE six seconds after a START over five
    remaining seconds stores -1000. *)
Lemma pause_after_expiry_negative :
  let w := Example.with_remaining 5000 Example.fresh_world in
  let w' := Timer.run [START 5000 0; PAUSE 6000] w in
  remaining_nonneg w ∧
  RemainingTime (local w') = Some (JS.Num (-1000)) ∧
  ¬ remaining_nonneg w'.
Proof.
  repeat split.
  - exists 5000%Z. split; [reflexivity | lia].
  - intros (r & Hr & Hpos). simpl in Hr. simplify_eq. lia.
Qed.

End TimerProperties.

(** * Frames: what a handler leaves alone *)

Section Frames.
Context {S : Type} (proj : World → S).

Lemma keeps_ret {A} (post : A → Prop) (a : A) : post a → keeps proj post (ret a).
Proof. by intros Ha w. Qed.

Lemma keeps_throw {A} (post : A → Prop) : keeps proj post (@throw A).
Proof. by intros w. Qed.

Lemma keeps_bind {A B} (P : A → Prop) (Q : B → Prop) (m : M A) (k : A → M B) :
  keeps proj P m → (∀ a, P a → keeps proj Q (k a)) → keeps proj Q (bind m k).
Proof.
  intros Hm Hk w. unfold bind. destruct (Hm w) as [Hw Ha].
  destruct (m w) as [[a|] w']; simpl in *; [|done].
  destruct (Hk a Ha w') as [Hw' Hb]. split; [congruence | done].
Qed.

Lemma keeps_try_catch {A} (post : A → Prop) (m h : M A) :
  keeps proj post m → keeps proj post h → keeps proj post (try_catch m h).
Proof.
  intros Hm Hh w. unfold try_catch. destruct (Hm w) as [Hw Ha].
  destruct (m w) as [[a|] w']; simpl in *; [done|].
  destruct (Hh w') as [Hw' Hb]. split; [congruence | done].
Qed.

Lemma keeps_run_callbacks (cbs : list (M unit)) :
  Forall (keeps proj (λ _, True)) cbs → keeps proj (λ _, True) (run_callbacks cbs).
Proof.
  induction 1 as [|cb cbs Hcb Hcbs IH]; simpl; [by apply keeps_ret|].
  eapply keeps_bind; [exact Hcb | done].
Qed.

End Frames.

(** * Properties of the grouping service and the registry *)

Section RegistryProperties.
Context `{Host}.

(** Closes the goals that say what a handler left alone. *)
Ltac frame_goals :=
  repeat split;
  first
    [ done
    | by intros [? ?]
    | unfold storage_calls; simpl; rewrite ?filter_app; simpl;
      by rewrite ?app_nil_r
    | by rewrite lookup_insert_eq
    | idtac ].

(** Assigning the group touches neither the storage areas nor the location
    of a tab, and succeeds when the tab is open. *)
Lemma assign_group_frame (tab : Tab) (title color : string) (w : World) :
  ∃ r w1, assign_group tab title color w = (r, w1) ∧
    sync w1 = sync w ∧ local w1 = local w ∧ session w1 = session w ∧
    storage_calls w1 = storage_calls w ∧
    (is_Some (tabs w !! tab_id tab) →
     r = Returned tt ∧ is_Some (tabs w1 !! tab_id tab)).
Proof.
  unfold assign_group, tabGroups_query, bind, gets.
  destruct (filter _ (map_to_list (groups w))) as [|[g grp] rest] eqn:Hq.
  - unfold chrome_tabs_group, chrome_tabGroups_update, bind, gets, issue, modify, ret, throw.
    simpl.
    destruct (tabs w !! tab_id tab) as [t|] eqn:Ht; simpl.
    + rewrite lookup_insert_eq. simpl. rewrite lookup_insert_eq. simpl.
      rewrite lookup_insert_eq. simpl.
      eexists _, _. split; [reflexivity|]. simpl. frame_goals.
    + eexists _, _. split; [reflexivity|]. simpl. frame_goals.
  - assert (Hg : groups w !! g = Some grp).
    { apply elem_of_map_to_list.
      assert (Hin : (g, grp) ∈ (g, grp) :: rest) by left.
      rewrite <- Hq in Hin. by apply list_elem_of_filter in Hin as [_ Hin]. }
    unfold chrome_tabs_group, bind, gets, issue, modify, ret, throw. simpl.
    destruct (tabs w !! tab_id tab) as [t|] eqn:Ht; simpl.
    + rewrite Hg. simpl. eexists _, _. split; [reflexivity|]. simpl. frame_goals.
    + eexists _, _. split; [reflexivity|]. simpl. frame_goals.
Qed.

Lemma startsWith_http_truthy (u : string) :
  JS.startsWith "http" u = true → JS.falsy (Some u) = false.
Proof. by destruct u. Qed.

Lemma saveDomainAsDistracting_guard (url : option string) (w : World) :
  not_http url → saveDomainAsDistracting url w = (Returned (ret tt), w).
Proof.
  intros [->|(u & -> & Hu)]; [done|].
  unfold saveDomainAsDistracting. by rewrite Hu, orb_true_r.
Qed.

Lemma saveTabAsDistracting_guard (tab : Tab) (w : World) :
  not_http (tab_url tab) → saveTabAsDistracting tab w = (Returned (ret tt), w).
Proof.
  unfold saveTabAsDistracting. intros [->|(u & -> & Hu)]; [done|].
  by rewrite Hu, orb_true_r.
Qed.

Lemma groupTab_marks (tab : Tab) (u : string) (url : URL) (w : World) :
  is_Some (tabs w !! tab_id tab) →
  tab_url tab = Some u → JS.startsWith "http" u = true → URL_new u = Some url →
  registry (exec (groupTab tab false) w) = marked (hostname url) (registry w) ∧
  is_Some (tabs (exec (groupTab tab false) w) !! tab_id tab).
Proof.
  intros Hopen Hu Hhttp Hurl.
  destruct (assign_group_frame tab DISTRACTING.1 DISTRACTING.2 w)
    as (r & w1 & Hassign & Hsync & _ & _ & _ & Hok).
  destruct (Hok Hopen) as [-> Hopen1].
  unfold exec, groupTab, try_catch, bind. simpl. simpl in Hassign. rewrite Hassign.
  simpl. unfold saveDomainAsDistracting, saveTabAsDistracting.
  rewrite Hu, Hhttp, (startsWith_http_truthy u Hhttp), Hurl. simpl.
  unfold registry, marked. rewrite <- Hsync.
  destruct (JS.includes (hostname url) (default [] (distractingDomains (sync w1))));
    destruct (existsb _ (default [] (distractingTabs (sync w1)))); simpl; done.
Qed.

Lemma sort_Permutation (l : list string) : JS.sort l ≡ₚ l.
Proof. apply merge_sort_Permutation. Qed.

Lemma sort_Sorted (l : list string) : Sorted String.le (JS.sort l).
Proof. apply (Sorted_merge_sort String.le). Qed.

(** The sorted array is the only sorted arrangement of the elements. *)
Lemma sort_unique (l l' : list string) :
  Sorted String.le l' → l' ≡ₚ l → JS.sort l = l'.
Proof.
  intros Hs Hp. apply (Sorted_unique String.le); [apply sort_Sorted | done |].
  by rewrite sort_Permutation.
Qed.

Lemma includes_elem_of (d : string) (l : list string) :
  JS.includes d l = true ↔ d ∈ l.
Proof. unfold JS.includes. by rewrite bool_decide_eq_true. Qed.

Lemma marked_elem_of (d : string) (l : list string) : d ∈ marked d l.
Proof.
  unfold marked. destruct (JS.includes d l) eqn:Hin.
  - by apply includes_elem_of.
  - rewrite sort_Permutation. unfold JS.push. set_solver.
Qed.

Lemma marked_Sorted (d : string) (l : list string) :
  Sorted String.le l → Sorted String.le (marked d l).
Proof.
  intros Hl. unfold marked. destruct (JS.includes d l); [done | apply sort_Sorted].
Qed.

Lemma marked_NoDup (d : string) (l : list string) :
  NoDup l → NoDup (marked d l).
Proof.
  intros Hl. unfold marked. destruct (JS.includes d l) eqn:Hin; [done|].
  rewrite sort_Permutation. unfold JS.push.
  apply NoDup_app. repeat split; [done | | apply NoDup_singleton].
  intros x Hx ->%list_elem_of_singleton.
  apply includes_elem_of in Hx. congruence.
Qed.

Lemma marked_twice (d : string) (l : list string) :
  marked d (marked d l) = marked d l.
Proof.
  unfold marked at 1.
  by rewrite (proj2 (includes_elem_of d (marked d l)) (marked_elem_of d l)).
Qed.

Lemma occurrences_not_elem_of (d : string) (l : list string) :
  d ∉ l → occurrences d l = 0.
Proof.
  unfold occurrences. induction l as [|x l IH]; intros Hd; [done|].
  apply not_elem_of_cons in Hd as [Hne Hd].
  rewrite filter_cons_False by done. by apply IH.
Qed.

Lemma occurrences_NoDup (d : string) (l : list string) :
  NoDup l → d ∈ l → occurrences d l = 1.
Proof.
  induction 1 as [|x l Hx Hl IH]; intros Hd.
  - by apply elem_of_nil in Hd.
  - unfold occurrences in *. destruct (decide (x = d)) as [->|Hne].
    + rewrite filter_cons_True by done. simpl. f_equal.
      by apply occurrences_not_elem_of.
    + rewrite filter_cons_False by done. apply IH.
      apply elem_of_cons in Hd as [->|Hd]; done.
Qed.

(** C6, as the code has it. When the tab is open, so that it can be put in
    its group, and its URL starts with [http] and is on the domain [d],
    [groupTab(tab, false)] leaves [d] in the registry; a sorted registry
    stays sorted, one without duplicates stays without duplicates, and
    marking the domain a second time changes nothing, so that [d] has
    exactly one entry. *)
Theorem groupTab_registers_domain (tab : Tab) (u : string) (url : URL) (w : World) :
  is_Some (tabs w !! tab_id tab) →
  tab_url tab = Some u → JS.startsWith "http" u = true → URL_new u = Some url →
  let d := hostname url in
  let w1 := exec (groupTab tab false) w in
  let w2 := exec (groupTab tab false) w1 in
  d ∈ registry w1 ∧
  (Sorted String.le (registry w) → Sorted String.le (registry w1)) ∧
  (NoDup (registry w) → NoDup (registry w1)) ∧
  registry w2 = registry w1 ∧
  (NoDup (registry w) → occurrences d (registry w2) = 1).
Proof.
  intros Hopen Hu Hhttp Hurl d w1 w2.
  destruct (groupTab_marks tab u url w Hopen Hu Hhttp Hurl) as [Hreg1 Hopen1].
  destruct (groupTab_marks tab u url w1 Hopen1 Hu Hhttp Hurl) as [Hreg2 _].
  fold d w1 in Hreg1, Hreg2. fold w2 in Hreg2.
  assert (Hsame : registry w2 = registry w1).
  { rewrite Hreg2, Hreg1. apply marked_twice. }
  rewrite Hsame, Hreg1.
  split; [apply marked_elem_of|].
  split; [apply marked_Sorted|].
  split; [apply marked_NoDup|].
  split; [done|].
  intros Hnd. apply occurrences_NoDup; [by apply marked_NoDup | apply marked_elem_of].
Qed.

(** C10. For a tab without a URL, or with one that does not start with
    [http], the two save functions return at once, without a call to the
    storage, and [groupTab(tab, false)] leaves the storage as it is: both
    stores are unchanged and no storage call is issued. *)
Theorem groupTab_skips_non_http (tab : Tab) (w : World) :
  not_http (tab_url tab) →
  saveDomainAsDistracting (tab_url tab) w = (Returned (ret tt), w) ∧
  saveTabAsDistracting tab w = (Returned (ret tt), w) ∧
  let w' := exec (groupTab tab false) w in
  sync w' = sync w ∧
  distractingDomains (sync w') = distractingDomains (sync w) ∧
  distractingTabs (sync w') = distractingTabs (sync w) ∧
  storage_calls w' = storage_calls w.
Proof.
  intros Hguard.
  split; [by apply saveDomainAsDistracting_guard|].
  split; [by apply saveTabAsDistracting_guard|].
  destruct (assign_group_frame tab DISTRACTING.1 DISTRACTING.2 w)
    as (r & w1 & Hassign & Hsync & _ & _ & Hcalls & _).
  assert (Hexec : exec (groupTab tab false) w = w1).
  { unfold exec, groupTab, try_catch, bind. simpl. simpl in Hassign. rewrite Hassign.
    destruct r as [[]|]; simpl; [|done].
    rewrite saveDomainAsDistracting_guard by done.
    rewrite saveTabAsDistracting_guard by done. done. }
  simpl. rewrite Hexec, Hsync, Hcalls. done.
Qed.

End RegistryProperties.

Section RegistryExamples.
#[local] Existing Instance Example.host.

(** C6 in the example: a tab at [https://example.com/x] over a registry
    that holds two other domains. *)
Lemma groupTab_registers_domain_witness :
  let tab := mkTab 7 1 (Some "https://example.com/x") (Some "a page") None in
  let w := set_sync (λ _, mkSync (Some ["a.org"; "z.net"]) None)
             (Example.open_tab 7 "https://example.com/x" Example.fresh_world) in
  let w1 := exec (groupTab tab false) w in
  let w2 := exec (groupTab tab false) w1 in
  "example.com" ∈ registry w1 ∧
  (Sorted String.le (registry w) → Sorted String.le (registry w1)) ∧
  (NoDup (registry w) → NoDup (registry w1)) ∧
  registry w2 = registry w1 ∧
  (NoDup (registry w) → occurrences "example.com" (registry w2) = 1).
Proof.
  exact (groupTab_registers_domain
           (mkTab 7 1 (Some "https://example.com/x") (Some "a page") None)
           "https://example.com/x" (mkURL "https:" "example.com")
           (set_sync (λ _, mkSync (Some ["a.org"; "z.net"]) None)
              (Example.open_tab 7 "https://example.com/x" Example.fresh_world))
           (ex_intro _ _ eq_refl) eq_refl eq_refl eq_refl).
Defined.

(** C6 fails as stated: a tab on [example.com] whose URL does not start
    with [http] is grouped and its domain is not registered, and for a tab
    that was closed nothing is registered either. *)
Lemma groupTab_domain_not_registered :
  let ftp := mkTab 7 1 (Some "ftp://example.com/pub/") (Some "a page") None in
  let closed := mkTab 8 1 (Some "https://example.com/x") (Some "a page") None in
  let w := Example.open_tab 7 "ftp://example.com/pub/" Example.fresh_world in
  (hostname <$> URL_new "ftp://example.com/pub/" = Some "example.com" ∧
   tab_groupId <$> tabs (exec (groupTab ftp false) w) !! 7 = Some (Some 0) ∧
   "example.com" ∉ registry (exec (groupTab ftp false) w)) ∧
  (hostname <$> URL_new "https://example.com/x" = Some "example.com" ∧
   "example.com" ∉ registry (exec (groupTab closed false) w)).
Proof.
  repeat split; try (vm_compute; reflexivity); vm_compute; apply not_elem_of_nil.
Qed.

(** C10 in the example: a tab of the browser's own pages. *)
Lemma groupTab_skips_non_http_witness :
  let tab := mkTab 7 1 (Some "chrome://settings/") (Some "Settings") None in
  let w := Example.open_tab 7 "chrome://settings/" Example.fresh_world in
  saveDomainAsDistracting (tab_url tab) w = (Returned (ret tt), w) ∧
  saveTabAsDistracting tab w = (Returned (ret tt), w) ∧
  let w' := exec (groupTab tab false) w in
  sync w' = sync w ∧
  distractingDomains (sync w') = distractingDomains (sync w) ∧
  distractingTabs (sync w') = distractingTabs (sync w) ∧
  storage_calls w' = storage_calls w.
Proof.
  exact (groupTab_skips_non_http
           (mkTab 7 1 (Some "chrome://settings/") (Some "Settings") None)
           (Example.open_tab 7 "chrome://settings/" Example.fresh_world)
           (or_intror (ex_intro _ "chrome://settings/" (conj eq_refl eq_refl)))).
Defined.

End RegistryExamples.

(** * Properties of the lock gate and of the unlock flow *)

Section LockProperties.
Context `{Host}.

(** Unfolds the monad and follows every branch of a handler. *)
Ltac branches :=
  unfold exec, try_catch, bind, gets, issue, modify, ret, throw in *; simpl in *;
  repeat (match goal with
          | |- context [match ?x with _ => _ end] => destruct x eqn:?
          end; simpl in *);
  try done.

Lemma URL_new_truthy (u : string) (url : URL) :
  URL_new u = Some url → JS.falsy (Some u) = false.
Proof.
  destruct u; [|done]. rewrite URL_new_empty. discriminate.
Qed.

Lemma lacks_getURL (d : ascii) (path : string) :
  JS.in_range "a" "p" d = false →
  JS.lacks d "chrome-extension://" → JS.lacks d ("/" +:+ path) →
  JS.lacks d (getURL path).
Proof.
  intros Hd Hscheme Hpath. unfold getURL.
  apply lacks_app; [done|]. apply lacks_app; [|done].
  apply (lacks_all_chars (JS.in_range "a" "p")); [done | apply extension_id_letters].
Qed.

(** The search of the lock page is the query that the gate wrote. *)
Lemma location_search_lock_url (original : string) :
  JS.location_search (lock_url original) = "?url=" +:+ JS.encodeURIComponent original.
Proof.
  unfold JS.location_search, lock_url.
  assert (Hq : JS.lacks "#" ("?url=" +:+ JS.encodeURIComponent original)).
  { apply lacks_app; [done|]. apply lacks_encodeURIComponent; [set_solver | done]. }
  rewrite (split_at_app "#" (getURL "html/locked.html")) by (by apply lacks_getURL).
  rewrite Hq. cbn [fst snd].
  rewrite (split_at_app "?" (getURL "html/locked.html")) by (by apply lacks_getURL).
  push_append. cbn [JS.split_at fst snd]. done.
Qed.

(** The lock page reads back the URL that the gate was given. *)
Lemma targetUrl_lock_url (original : string) :
  targetUrl (DOMContentLoaded (lock_url original)) = Some original.
Proof.
  unfold DOMContentLoaded. simpl.
  rewrite location_search_lock_url. apply URLSearchParams_get_url.
Qed.

(** The activation of one of the extension's own pages does nothing. *)
Lemma onActivated_self_page (w : World) (tabId : nat) (tab : Tab) (u : string) (url : URL) :
  tabs w !! tabId = Some tab → tab_url tab = Some u → URL_new u = Some url →
  protocol url = "chrome-extension:" →
  onActivated tabId w = (Returned tt, w).
Proof.
  intros Htab Hu Hurl Hproto. unfold onActivated, bind, gets. simpl.
  rewrite Htab, Hu, (URL_new_truthy u url Hurl), Hurl, Hproto. done.
Qed.

(** The activation of a tab on a locked domain. *)
Lemma onActivated_locked (w : World) (tabId : nat) (tab : Tab) (u : string) (url : URL) :
  tabs w !! tabId = Some tab → tab_url tab = Some u → URL_new u = Some url →
  protocol url ≠ "chrome-extension:" →
  hostname url ∈ registry w → unlocked (hostname url) w = false →
  let w' := exec (onActivated tabId) w in
  redirects w' = redirects w ++ [(tab_id tab, lock_url u)] ∧
  (tab_id tab = tabId → tab_url <$> tabs w' !! tabId = Some (Some (lock_url u))) ∧
  sync w' = sync w ∧ session w' = session w ∧ local w' = local w.
Proof.
  intros Htab Hu Hurl Hproto Hin Hlocked.
  apply includes_elem_of in Hin. unfold registry in Hin. unfold unlocked in Hlocked.
  apply String.eqb_neq in Hproto.
  unfold exec, onActivated, isDomainDistracting, session_get, sync_get_distractingDomains,
    chrome_tabs_update, bind, gets, issue, modify, ret. simpl.
  rewrite Htab, Hu, (URL_new_truthy u url Hurl), Hurl, Hproto. simpl.
  rewrite Hin. simpl. rewrite Hlocked. simpl.
  repeat split; try done.
  - unfold redirects. simpl. rewrite !omap_app. simpl. by rewrite !app_nil_r.
  - intros <-. rewrite lookup_alter_eq, Htab. done.
Qed.

(** No redirect for a domain that is not registered or that is unlocked. *)
Lemma onActivated_passes (w : World) (tabId : nat) (tab : Tab) (u : string) (url : URL) :
  tabs w !! tabId = Some tab → tab_url tab = Some u → URL_new u = Some url →
  hostname url ∉ registry w ∨ unlocked (hostname url) w = true →
  let w' := exec (onActivated tabId) w in
  redirects w' = redirects w ∧ tabs w' = tabs w.
Proof.
  intros Htab Hu Hurl Hpass.
  unfold exec, onActivated, isDomainDistracting, session_get, sync_get_distractingDomains,
    chrome_tabs_update, bind, gets, issue, modify, ret. simpl.
  rewrite Htab, Hu, (URL_new_truthy u url Hurl), Hurl.
  destruct (String.eqb (protocol url) "chrome-extension:"); [done|]. simpl.
  destruct (JS.includes (hostname url) _) eqn:Hin; simpl.
  - destruct Hpass as [Hout|Hunlocked].
    + apply includes_elem_of in Hin. done.
    + unfold unlocked in Hunlocked. rewrite Hunlocked. simpl.
      split; [|done]. unfold redirects. simpl. rewrite !omap_app. simpl.
      by rewrite !app_nil_r.
  - split; [|done]. unfold redirects. simpl. rewrite !omap_app. simpl.
    by rewrite !app_nil_r.
Qed.

(** ** What the handlers leave in the session storage *)

Lemma onActivated_session (tabId : nat) (w : World) :
  session (exec (onActivated tabId) w) = session w.
Proof.
  unfold onActivated, isDomainDistracting, session_get, sync_get_distractingDomains,
    chrome_tabs_update.
  branches.
Qed.

Lemma sync_get_distractingDomains_keeps :
  keeps session (λ _, True) sync_get_distractingDomains.
Proof. by intros w. Qed.

Lemma sync_get_distractingTabs_keeps :
  keeps session (λ _, True) sync_get_distractingTabs.
Proof. by intros w. Qed.

Lemma saveDomainAsDistracting_keeps (url : option string) :
  keeps session (keeps session (λ _, True)) (saveDomainAsDistracting url).
Proof.
  unfold saveDomainAsDistracting.
  destruct url as [u|]; [|by apply keeps_ret, keeps_ret].
  destruct (_ || _); [by apply keeps_ret, keeps_ret|].
  destruct (URL_new u) as [url|]; [|apply keeps_throw].
  eapply keeps_bind; [apply sync_get_distractingDomains_keeps|].
  intros result _. apply keeps_ret.
  destruct (negb _); [by intros w | by apply keeps_ret].
Qed.

Lemma saveTabAsDistracting_keeps (tab : Tab) :
  keeps session (keeps session (λ _, True)) (saveTabAsDistracting tab).
Proof.
  unfold saveTabAsDistracting.
  destruct (tab_url tab) as [u|]; [|by apply keeps_ret, keeps_ret].
  destruct (_ || _); [by apply keeps_ret, keeps_ret|].
  eapply keeps_bind; [apply sync_get_distractingTabs_keeps|].
  intros result _. apply keeps_ret.
  destruct (negb _); [by intros w | by apply keeps_ret].
Qed.

Lemma assign_group_keeps (tab : Tab) (title color : string) :
  keeps session (λ _, True) (assign_group tab title color).
Proof.
  intros w.
  destruct (assign_group_frame tab title color w) as (r & w1 & -> & _ & _ & Hs & _).
  split; [done | by destruct r].
Qed.

Lemma groupTab_keeps (tab : Tab) (isProductive : bool) :
  keeps session (λ _, True) (groupTab tab isProductive).
Proof.
  unfold groupTab.
  eapply keeps_bind with (P := Forall (keeps session (λ _, True))).
  - apply keeps_try_catch; [|by apply keeps_ret].
    eapply keeps_bind; [apply assign_group_keeps|]. intros _ _.
    destruct isProductive; simpl; [by apply keeps_ret|].
    eapply keeps_bind; [apply saveDomainAsDistracting_keeps|]. intros cb1 Hcb1.
    eapply keeps_bind; [apply saveTabAsDistracting_keeps|]. intros cb2 Hcb2.
    apply keeps_ret. by rewrite !Forall_cons.
  - intros pending Hpending. by apply keeps_run_callbacks.
Qed.

Lemma groupTab_session (tab : Tab) (isProductive : bool) (w : World) :
  session (exec (groupTab tab isProductive) w) = session w.
Proof. apply groupTab_keeps. Qed.

Lemma onClicked_session (item : menuItem) (tab : Tab) (w : World) :
  session (exec (onClicked item tab) w) = session w.
Proof.
  unfold exec, onClicked, try_catch, bind, gets. simpl.
  destruct (tabs w !! tab_id tab); [|done].
  destruct item; [| |done].
  - pose proof (groupTab_session tab true w) as Hs. unfold exec in Hs.
    by destruct (groupTab tab true w) as [[|] ?].
  - pose proof (groupTab_session tab false w) as Hs. unfold exec in Hs.
    by destruct (groupTab tab false w) as [[|] ?].
Qed.

Lemma timer_step_session (c : Timer.command) (w : World) :
  session (Timer.step c w) = session w.
Proof. by destruct c as [[d| | |] t t']. Qed.

Lemma onAlarm_session (name : string) (w : World) :
  session (exec (Timer.onAlarm name) w) = session w.
Proof. unfold Timer.onAlarm. branches. Qed.

(** The click on the unlock button with the stored PIN. *)
Lemma unlock_click_match (page : LockPage) (w : World) (target : string) (url : URL) :
  targetUrl page = Some target → URL_new target = Some url →
  unlockPin (local w) = Some (pinInput_value page) →
  unlock_click page w =
  (Returned (mkLockPage (targetUrl page) target (pinInput_value page)
               (errorMessage_textContent page)),
   set_session (λ m, <["unlocked_" +:+ hostname url := true]> m)
     (set_calls (λ l, l ++ [storage_set session_area ("unlocked_" +:+ hostname url)])
        (set_calls (λ l, l ++ [storage_get local_area ["unlockPin"]]) w))).
Proof.
  intros Htarget Hurl Hpin.
  unfold unlock_click, local_get_unlockPin, session_set, bind, gets, issue, modify, ret.
  simpl. rewrite Hpin, bool_decide_eq_true_2 by done. by rewrite Htarget, Hurl.
Qed.

(** The click with any other text. *)
Lemma unlock_click_mismatch (page : LockPage) (w : World) :
  unlockPin (local w) ≠ Some (pinInput_value page) →
  unlock_click page w =
  (Returned (mkLockPage (targetUrl page) (location_href page) ""
               "Incorrect PIN. Please try again."),
   set_calls (λ l, l ++ [storage_get local_area ["unlockPin"]]) w).
Proof.
  intros Hpin.
  unfold unlock_click, local_get_unlockPin, bind, gets, issue, modify, ret. simpl.
  by rewrite bool_decide_eq_false_2.
Qed.

Lemma unlock_click_keeps_unlocked (d : string) (page : LockPage) (w : World) :
  unlocked d w = true → unlocked d (exec (unlock_click page) w) = true.
Proof.
  unfold unlocked, unlock_click, local_get_unlockPin, session_set.
  intros Hd. branches.
  rewrite lookup_insert. by destruct (decide _).
Qed.

Lemma handle_keeps_unlocked (d : string) (e : event) (w : World) :
  unlocked d w = true → unlocked d (handle e w) = true.
Proof.
  intros Hd. destruct e as [tabId|item tab|c|name|page|open]; simpl.
  - unfold unlocked. by rewrite onActivated_session.
  - unfold unlocked. by rewrite onClicked_session.
  - unfold unlocked. by rewrite timer_step_session.
  - unfold unlocked. by rewrite onAlarm_session.
  - by apply unlock_click_keeps_unlocked.
  - done.
Qed.

(** Once recorded, an unlock stays for the rest of the session. *)
Lemma session_run_keeps_unlocked (d : string) (es : list event) (w : World) :
  unlocked d w = true → unlocked d (session_run es w) = true.
Proof.
  revert w. induction es as [|e es IH]; intros w Hd; [done|].
  simpl. apply IH. by apply handle_keeps_unlocked.
Qed.

(** A wrong PIN changes neither the storage nor the location. *)
Lemma attempts_mismatch (pins : list string) (page : LockPage) (w : World) :
  Forall (λ pin, unlockPin (local w) ≠ Some pin) pins →
  let after := attempts pins page w in
  session after.2 = session w ∧ local after.2 = local w ∧
  location_href after.1 = location_href page ∧
  targetUrl after.1 = targetUrl page.
Proof.
  revert page w. induction pins as [|pin pins IH]; intros page w Hpins; [done|].
  apply Forall_cons in Hpins as [Hpin Hpins]. simpl.
  rewrite unlock_click_mismatch by done. simpl.
  destruct (IH (mkLockPage (targetUrl page) (location_href page) ""
                  "Incorrect PIN. Please try again.")
              (set_calls (λ l, l ++ [storage_get local_area ["unlockPin"]]) w) Hpins)
    as (Hs & Hl & Hh & Hq).
  done.
Qed.

(** C8. The activation of a tab whose URL has the scheme of the
    extension's own pages changes nothing and issues no call at all, so no
    redirect, whatever the registry holds. *)
Theorem self_pages_never_locked (w : World) (tabId : nat) (tab : Tab) (u : string)
    (url : URL) :
  tabs w !! tabId = Some tab → tab_url tab = Some u → URL_new u = Some url →
  protocol url = "chrome-extension:" →
  ∀ domains : option (list string),
    let w' := set_sync (λ s, mkSync domains (distractingTabs s)) w in
    onActivated tabId w' = (Returned tt, w') ∧
    redirects (exec (onActivated tabId) w') = redirects w' ∧
    tabs (exec (onActivated tabId) w') = tabs w'.
Proof.
  intros Htab Hu Hurl Hproto domains w'.
  assert (Hrun : onActivated tabId w' = (Returned tt, w')).
  { by apply (onActivated_self_page w' tabId tab u url). }
  unfold exec. by rewrite Hrun.
Qed.

(** C3, as the code has it. When a tab is activated whose URL does not
    have the scheme of the extension's own pages, whose hostname is in the
    registry and for which no unlock is recorded, the gate sends the tab to
    the lock page, and the lock page loaded at that location reads the
    original URL back from its query parameter.  After a click on the unlock
    button with the stored PIN on a lock page for a URL of that hostname, the
    unlock stays recorded whatever happens next in the session, and no
    activation of a tab on the same hostname issues a redirect.  The
    activation of a tab on a hostname that is not in the registry issues no
    redirect. *)
Theorem lock_gate (w : World) (tabId : nat) (tab : Tab) (u : string) (url : URL) :
  tabs w !! tabId = Some tab → tab_url tab = Some u → URL_new u = Some url →
  let d := hostname url in
  let w1 := exec (onActivated tabId) w in
  (protocol url ≠ "chrome-extension:" → d ∈ registry w → unlocked d w = false →
   redirects w1 = redirects w ++ [(tab_id tab, lock_url u)] ∧
   (tab_id tab = tabId → tab_url <$> tabs w1 !! tabId = Some (Some (lock_url u))) ∧
   targetUrl (DOMContentLoaded (lock_url u)) = Some u) ∧
  (∀ (w' : World) (page : LockPage) (target : string) (target_url : URL)
     (es : list event) (tabId' : nat) (tab' : Tab) (u' : string) (url' : URL),
     targetUrl page = Some target → URL_new target = Some target_url →
     hostname target_url = d →
     unlockPin (local w') = Some (pinInput_value page) →
     let w2 := session_run es (exec (unlock_click page) w') in
     tabs w2 !! tabId' = Some tab' → tab_url tab' = Some u' →
     URL_new u' = Some url' → hostname url' = d →
     unlocked d w2 = true ∧
     redirects (exec (onActivated tabId') w2) = redirects w2 ∧
     tabs (exec (onActivated tabId') w2) = tabs w2) ∧
  (d ∉ registry w → redirects w1 = redirects w ∧ tabs w1 = tabs w).
Proof.
  intros Htab Hu Hurl d w1. split; [|split].
  - intros Hproto Hin Hlocked.
    destruct (onActivated_locked w tabId tab u url Htab Hu Hurl Hproto Hin Hlocked)
      as (Hredirect & Hlocation & _).
    split; [done|]. split; [done|]. apply targetUrl_lock_url.
  - intros w' page target target_url es tabId' tab' u' url' Htarget Hparse Hhost Hpin
      w2 Htab' Hu' Hurl' Hsame.
    assert (Hunlocked : unlocked d w2 = true).
    { apply session_run_keeps_unlocked. unfold exec.
      rewrite (unlock_click_match page w' target target_url) by done.
      unfold unlocked. simpl. by rewrite Hhost, lookup_insert_eq. }
    split; [done|].
    apply (onActivated_passes w2 tabId' tab' u' url'); try done.
    right. by rewrite Hsame.
  - intros Hout. apply (onActivated_passes w tabId tab u url); try done. by left.
Qed.

(** C4. On a lock page whose target URL parses, a click with the text that
    equals the stored PIN records the unlock of the hostname of the target
    and sends the browser to the target; a click with any other text shows
    the error message, empties the input and leaves the session storage and
    the location as they are.  No attempt depends on the ones before it:
    after any number of wrong PINs the stored PIN still unlocks. *)
Theorem unlock_flow (page : LockPage) (w : World) (target : string) (url : URL) :
  targetUrl page = Some target → URL_new target = Some url →
  let key := "unlocked_" +:+ hostname url in
  let r := (unlock_click page w).1 in
  let w' := (unlock_click page w).2 in
  (unlockPin (local w) = Some (pinInput_value page) →
   session w' = <[key := true]> (session w) ∧
   session w' !! key = Some true ∧
   ∃ page', r = Returned page' ∧ location_href page' = target) ∧
  (unlockPin (local w) ≠ Some (pinInput_value page) →
   session w' = session w ∧ local w' = local w ∧
   ∃ page', r = Returned page' ∧
     errorMessage_textContent page' = "Incorrect PIN. Please try again." ∧
     pinInput_value page' = "" ∧
     location_href page' = location_href page) ∧
  (∀ (pins : list string) (pin : string),
     Forall (λ p, unlockPin (local w) ≠ Some p) pins →
     unlockPin (local w) = Some pin →
     let failed := attempts pins page w in
     session failed.2 = session w ∧
     location_href failed.1 = location_href page ∧
     let final := attempts [pin] failed.1 failed.2 in
     session final.2 !! key = Some true ∧ location_href final.1 = target).
Proof.
  intros Htarget Hurl key r w'. split; [|split].
  - intros Hpin. subst r w'. rewrite (unlock_click_match page w target url) by done.
    simpl. repeat split; [apply lookup_insert_eq | by eexists].
  - intros Hpin. subst r w'. rewrite (unlock_click_mismatch page w) by done.
    simpl. repeat split. by eexists.
  - intros pins pin Hpins Hpin failed.
    destruct (attempts_mismatch pins page w Hpins) as (Hs & Hl & Hh & Hq).
    fold failed in Hs, Hl, Hh, Hq.
    split; [done|]. split; [done|]. simpl.
    rewrite (unlock_click_match _ failed.2 target url); simpl.
    + split; [apply lookup_insert_eq | done].
    + by rewrite Hq.
    + done.
    + by rewrite Hl.
Qed.

End LockProperties.

Section LockExamples.
#[local] Existing Instance Example.host.
Import Example.

(** C8 in the example: the task page of the extension, with the host of its
    URL in the registry. *)
Lemma self_pages_never_locked_witness :
  let u := "chrome-extension://abcdefghijklmnopabcdefghijklmnop/html/task.html" in
  let w := set_sync (λ s, mkSync (Some ["abcdefghijklmnopabcdefghijklmnop"])
                            (distractingTabs s))
             (open_tab 2 u fresh_world) in
  onActivated 2 w = (Returned tt, w) ∧
  redirects (exec (onActivated 2) w) = redirects w ∧
  tabs (exec (onActivated 2) w) = tabs w.
Proof.
  exact (self_pages_never_locked
           (open_tab 2 "chrome-extension://abcdefghijklmnopabcdefghijklmnop/html/task.html"
              fresh_world)
           2 (mkTab 2 1 (Some "chrome-extension://abcdefghijklmnopabcdefghijklmnop/html/task.html")
                (Some "a page") None)
           "chrome-extension://abcdefghijklmnopabcdefghijklmnop/html/task.html"
           (mkURL "chrome-extension:" "abcdefghijklmnopabcdefghijklmnop")
           eq_refl eq_refl eq_refl eq_refl
           (Some ["abcdefghijklmnopabcdefghijklmnop"])).
Defined.

(** C3 in the example: [example.com] is registered; the tab at
    [https://example.com/x] is sent to the lock page, and once the PIN has
    been entered there and other events have passed, the activation of a tab
    at [https://example.com/y] issues no redirect. *)
Lemma lock_gate_witness :
  let u := "https://example.com/x" in
  let w := with_pin "1234" (with_registry ["example.com"]
             (open_tab 9 "https://example.com/y" (open_tab 7 u fresh_world))) in
  let w1 := exec (onActivated 7) w in
  let w2 := session_run [TimerMessage (Timer.START 5000 0); TabActivated 7]
              (exec (unlock_click (typed_lock_page u "1234")) w1) in
  redirects w1 = [(7, lock_url u)] ∧
  redirects (exec (onActivated 9) w2) = redirects w2.
Proof.
  intros u w w1 w2.
  destruct (@lock_gate host w 7 (mkTab 7 1 (Some "https://example.com/x") (Some "a page") None)
              "https://example.com/x" (mkURL "https:" "example.com")
              eq_refl eq_refl eq_refl)
    as (Hlock & Hunlock & _).
  split.
  - apply Hlock; [discriminate | apply list_elem_of_here | reflexivity].
  - apply (Hunlock w1 (typed_lock_page "https://example.com/x" "1234")
             "https://example.com/x" (mkURL "https:" "example.com")
             [TimerMessage (Timer.START 5000 0); TabActivated 7]
             9 (mkTab 9 1 (Some "https://example.com/y") (Some "a page") None)
             "https://example.com/y" (mkURL "https:" "example.com"));
      reflexivity.
Defined.

(** C3 fails as stated: the hostname of a page of the extension can be in
    the registry (here after a page at [http://abcdefghijklmnopabcdefghijklmnop/]
    was marked as distracting), no unlock is recorded for it, and the
    activation of the extension's page issues no redirect. *)
Lemma own_page_on_registered_host_passes :
  let id := "abcdefghijklmnopabcdefghijklmnop" in
  let marked_tab := mkTab 1 1 (Some "http://abcdefghijklmnopabcdefghijklmnop/")
                      (Some "a page") None in
  let u := "chrome-extension://abcdefghijklmnopabcdefghijklmnop/html/task.html" in
  let w := open_tab 2 u
             (exec (onClicked markDistracting marked_tab)
                (open_tab 1 "http://abcdefghijklmnopabcdefghijklmnop/" fresh_world)) in
  hostname <$> URL_new u = Some id ∧
  id ∈ registry w ∧
  session w = ∅ ∧
  redirects (exec (onActivated 2) w) = [].
Proof.
  repeat split; try (vm_compute; reflexivity).
  vm_compute. apply list_elem_of_here.
Qed.

(** C4 in the example: the right PIN, a wrong one, and the right one after
    two wrong ones. *)
Lemma unlock_flow_witness :
  let target := "https://example.com/x" in
  let w := with_pin "1234" fresh_world in
  session (unlock_click (typed_lock_page target "1234") w).2 !! "unlocked_example.com"
    = Some true ∧
  session (unlock_click (typed_lock_page target "0000") w).2 = session w ∧
  session (attempts ["0000"; "1111"; "1234"] (typed_lock_page target "") w).2
    !! "unlocked_example.com" = Some true.
Proof.
  intros target w.
  destruct (@unlock_flow host (typed_lock_page "https://example.com/x" "1234") w
              "https://example.com/x" (mkURL "https:" "example.com") eq_refl eq_refl)
    as (Hmatch & _ & _).
  destruct (@unlock_flow host (typed_lock_page "https://example.com/x" "0000") w
              "https://example.com/x" (mkURL "https:" "example.com") eq_refl eq_refl)
    as (_ & Hwrong & _).
  destruct (@unlock_flow host (typed_lock_page "https://example.com/x" "") w
              "https://example.com/x" (mkURL "https:" "example.com") eq_refl eq_refl)
    as (_ & _ & Hretry).
  split; [apply Hmatch; reflexivity|].
  split; [apply Hwrong; discriminate|].
  destruct (Hretry ["0000"; "1111"] "1234") as (_ & _ & Hfinal & _);
    [repeat constructor; discriminate | reflexivity | exact Hfinal].
Defined.

End LockExamples.

(** * Properties of the task list *)

Section TaskProperties.
Import Tasks.

Lemma splice_length {A} (i : nat) (l : list A) :
  i < length l → length (JS.splice i 1 l) = length l - 1.
Proof.
  intros Hi. unfold JS.splice. rewrite length_app, length_take, length_drop. lia.
Qed.

Lemma splice_lookup_before {A} (i j : nat) (l : list A) :
  j < i → JS.splice i 1 l !! j = l !! j.
Proof.
  intros Hj. unfold JS.splice.
  destruct (decide (i ≤ length l)%nat) as [Hi|Hi].
  - rewrite lookup_app_l by (rewrite length_take; lia). by apply lookup_take_lt.
  - rewrite take_ge, drop_ge by lia. by rewrite app_nil_r.
Qed.

Lemma splice_lookup_after {A} (i j : nat) (l : list A) :
  i < length l → (i ≤ j)%nat → JS.splice i 1 l !! j = l !! S j.
Proof.
  intros Hi Hj. unfold JS.splice.
  rewrite lookup_app_r by (rewrite length_take; lia).
  rewrite length_take, lookup_drop. f_equal. lia.
Qed.

(** The storage keeps a value without [undefined] as it is. *)
Lemma stored_items (subs : list string) :
  map (λ x, match x with
            | Undefined => Null
            | _ => stored x
            end) (subtask <$> subs) = subtask <$> subs.
Proof.
  induction subs as [|txt subs IH]; [done|].
  rewrite fmap_cons. cbn [map]. by rewrite IH.
Qed.

Lemma stored_subtasks (subs : list string) :
  stored (Array (subtask <$> subs)) = Array (subtask <$> subs).
Proof.
  change (stored (Array (subtask <$> subs)))
    with (Array (map (λ x, match x with
                           | Undefined => Null
                           | _ => stored x
                           end) (subtask <$> subs))).
  by rewrite stored_items.
Qed.

Lemma stored_built (t : task) : built t → stored (properties t) = properties t.
Proof.
  intros [text subs|text subs deadline]; unfold properties.
  - change (stored (Object [("text", Str text); ("subtasks", Array (subtask <$> subs))]))
      with (Object [("text", Str text);
                    ("subtasks", stored (Array (subtask <$> subs)))]).
    by rewrite stored_subtasks.
  - change (stored (Object [("text", Str text); ("subtasks", Array (subtask <$> subs));
                            ("deadline", Str deadline)]))
      with (Object [("text", Str text);
                    ("subtasks", stored (Array (subtask <$> subs)));
                    ("deadline", Str deadline)]).
    by rewrite stored_subtasks.
Qed.

Lemma restore_one_built (t : task) : built t → restore_one (properties t) = Some t.
Proof. by intros [text subs|text subs deadline]. Qed.

Lemma mapM_restore_built (data : taskData) :
  Forall built data →
  mapM restore_one ((λ t, stored (properties t)) <$> data) = Some data.
Proof.
  intros Hdata. apply mapM_Some, Forall2_fmap_l, Forall_Forall2_diag.
  eapply Forall_impl; [exact Hdata|]. intros t Ht. simpl.
  rewrite stored_built by done. by apply restore_one_built.
Qed.

(** What [init] makes of a stored entry. *)
Lemma restore_one_Object (props : list (string * value)) :
  restore_one (Object props) =
  Some (let text := default Undefined (assoc "text" props) in
        let subtasks := default Undefined (assoc "subtasks" props) in
        let deadline := default Undefined (assoc "deadline" props) in
        if is_undefined deadline then new_Task text subtasks
        else new_TimedTask text subtasks deadline).
Proof.
  unfold restore_one. simpl. by destruct (is_undefined _).
Qed.

(** The tasks that the add buttons create are of the shape [built], and
    removing a task keeps the others as they are. *)
Lemma add_task_built (taskText : string) (data : taskData) (w : World) :
  Forall built data →
  ∃ data', (add_task taskText data w).1 = Returned data' ∧ Forall built data'.
Proof.
  intros Hdata. unfold add_task. destruct (String.eqb taskText ""); [by eexists|].
  eexists. split; [reflexivity|]. apply Forall_app. split; [done|].
  apply Forall_singleton. apply (built_Task taskText []).
Qed.

Lemma add_timed_task_built (taskText : string) (data : taskData) (w : World) :
  Forall built data →
  ∃ data', (add_timed_task taskText data w).1 = Returned data' ∧ Forall built data'.
Proof.
  intros Hdata. unfold add_timed_task. destruct (String.eqb taskText ""); [by eexists|].
  eexists. split; [reflexivity|]. apply Forall_app. split; [done|].
  apply Forall_singleton. apply (built_TimedTask taskText [] "").
Qed.

Lemma remove_task_built (i : nat) (data : taskData) (w : World) :
  Forall built data →
  ∃ data', (remove_task i data w).1 = Returned data' ∧ Forall built data'.
Proof.
  intros Hdata. eexists. split; [reflexivity|]. unfold JS.splice.
  apply Forall_app. split; [by apply Forall_take | by apply Forall_drop].
Qed.

(** C7. What [init] reads back after [SaveTasks] is the list that was
    saved: an entry stored with a [deadline] becomes a [TimedTask], an entry
    stored without one becomes a [Task], and [text], [subtasks] and
    [deadline] are the stored values. *)
Theorem tasks_round_trip (data : taskData) (w : World) :
  Forall built data →
  (restore (exec (SaveTasks data) w)).1 = Returned data ∧
  (∀ (props : list (string * value)) (d : value),
     assoc "deadline" props = Some d → d ≠ Undefined →
     restore_one (Object props) =
     Some (TimedTask (default Undefined (assoc "text" props))
             (or_default (Array []) (default Undefined (assoc "subtasks" props))) d)) ∧
  (∀ props : list (string * value),
     assoc "deadline" props = None →
     restore_one (Object props) =
     Some (Task (default Undefined (assoc "text" props))
             (or_default (Array []) (default Undefined (assoc "subtasks" props))))).
Proof.
  intros Hdata. split; [|split].
  - unfold restore, exec, SaveTasks, bind, gets, issue, modify, ret. simpl.
    by rewrite mapM_restore_built.
  - intros props d Hd Hdef. rewrite restore_one_Object, Hd. simpl.
    by destruct d.
  - intros props Hnone. by rewrite restore_one_Object, Hnone.
Qed.

(** C9. The click on the remove button of the task at index [i], with
    [i] below the length [n] of the list, takes that task out, keeps the
    tasks before it at their indices and moves the tasks after it down by
    one, and stores the new list, of length [n - 1]. *)
Theorem remove_task_removes (data : taskData) (i : nat) (w : World) :
  i < length data →
  let data' := JS.splice i 1 data in
  let w' := exec (remove_task i data) w in
  (remove_task i data w).1 = Returned data' ∧
  data' = take i data ++ drop (S i) data ∧
  length data' = length data - 1 ∧
  (∀ j, j < i → data' !! j = data !! j) ∧
  (∀ j, (i ≤ j)%nat → data' !! j = data !! S j) ∧
  tasks (local w') = Some ((λ t, stored (properties t)) <$> data') ∧
  (∃ persisted, tasks (local w') = Some persisted ∧ length persisted = length data - 1).
Proof.
  intros Hi data' w'. split; [done|].
  split; [unfold data', JS.splice; by rewrite Nat.add_1_r|].
  split; [by apply splice_length|].
  split; [intros j Hj; by apply splice_lookup_before|].
  split; [intros j Hj; by apply splice_lookup_after|].
  split; [done|].
  eexists. split; [reflexivity|]. rewrite length_fmap. by apply splice_length.
Qed.

End TaskProperties.

Section TaskExamples.
Import Tasks.

(** C7 in the example: a task with a subtask and a timed task. *)
Lemma tasks_round_trip_witness :
  let data := [Task (Str "write") (Array [subtask "outline"]);
               TimedTask (Str "ship") (Array []) (Str "2025-01-31")] in
  (restore (exec (SaveTasks data) Example.fresh_world)).1 = Returned data.
Proof.
  apply (tasks_round_trip
           [Task (Str "write") (Array [subtask "outline"]);
            TimedTask (Str "ship") (Array []) (Str "2025-01-31")]
           Example.fresh_world).
  apply Forall_cons. split; [apply (built_Task "write" ["outline"])|].
  apply Forall_cons. split; [apply (built_TimedTask "ship" [] "2025-01-31")|].
  apply Forall_nil_2.
Defined.

(** C9 in the example: the second of three tasks is removed. *)
Lemma remove_task_removes_witness :
  let data := [Task (Str "a") (Array []); Task (Str "b") (Array []);
               TimedTask (Str "c") (Array []) (Str "")] in
  (remove_task 1 data Example.fresh_world).1 =
  Returned [Task (Str "a") (Array []); TimedTask (Str "c") (Array []) (Str "")].
Proof.
  apply (remove_task_removes
           [Task (Str "a") (Array []); Task (Str "b") (Array []);
            TimedTask (Str "c") (Array []) (Str "")] 1 Example.fresh_world).
  simpl. lia.
Defined.

End TaskExamples.

(** * Further properties of the registry *)

Section RegistryMore.
Context `{Host}.

Lemma StronglySorted_filter_le (P : string → Prop) `{∀ x, Decision (P x)}
    (l : list string) :
  StronglySorted String.le l → StronglySorted String.le (filter P l).
Proof.
  induction 1 as [|x l Hl IH Hx]; [constructor|].
  destruct (decide (P x)) as [Hp|Hp].
  - rewrite filter_cons_True by done. constructor; [done|].
    apply Forall_forall. intros y [_ Hy]%list_elem_of_filter.
    by apply (proj1 (Forall_forall _ _) Hx).
  - by rewrite filter_cons_False.
Qed.

Lemma Sorted_filter_le (P : string → Prop) `{∀ x, Decision (P x)} (l : list string) :
  Sorted String.le l → Sorted String.le (filter P l).
Proof.
  intros Hl. apply StronglySorted_Sorted, StronglySorted_filter_le.
  by apply Sorted_StronglySorted; [apply _|].
Qed.

(** What the two functions on domains do to the world, callback included. *)
Lemma deleteDomainFromDistracting_run (d : string) (w : World) :
  exec (with_callback (deleteDomainFromDistracting d)) w =
  set_sync (λ s, mkSync (Some (filter (λ x, x ≠ d) (registry w))) (distractingTabs s))
    (set_calls (λ l, l ++ [storage_set sync_area "distractingDomains"])
       (set_calls (λ l, l ++ [storage_get sync_area ["distractingDomains"]]) w)).
Proof. reflexivity. Qed.

Lemma saveDomainAsDistracting_run (u : string) (url : URL) (w : World) :
  JS.startsWith "http" u = true → URL_new u = Some url →
  registry (exec (with_callback (saveDomainAsDistracting (Some u))) w) =
    marked (hostname url) (registry w) ∧
  saved_tabs (exec (with_callback (saveDomainAsDistracting (Some u))) w) = saved_tabs w.
Proof.
  intros Hhttp Hurl.
  unfold exec, with_callback, saveDomainAsDistracting, bind.
  rewrite Hhttp, (startsWith_http_truthy u Hhttp), Hurl. simpl.
  unfold registry, saved_tabs, marked.
  by destruct (JS.includes _ _).
Qed.

Lemma includes_false (d : string) (l : list string) :
  d ∉ l → JS.includes d l = false.
Proof.
  intros Hout. destruct (JS.includes d l) eqn:Hin; [|done].
  by apply includes_elem_of in Hin.
Qed.

Lemma filter_other_domains (d : string) (l : list string) :
  d ∉ l → filter (λ x, x ≠ d) l = l.
Proof.
  induction l as [|x l IH]; [done|]. intros [Hne Hl]%not_elem_of_cons.
  rewrite filter_cons_True by done. by rewrite IH.
Qed.

(** X1. [deleteDomainFromDistracting(d)] takes [d] out of the registry and
    keeps every other domain; a sorted registry stays sorted and one without
    duplicates stays so; the list of tabs and the session storage are not
    touched; and the list of domains is written even when [d] was not in
    it. *)
Theorem deleteDomain_removes (d : string) (w : World) :
  let w' := exec (with_callback (deleteDomainFromDistracting d)) w in
  (d ∉ registry w') ∧
  (∀ d', d' ≠ d → (d' ∈ registry w' ↔ d' ∈ registry w)) ∧
  (Sorted String.le (registry w) → Sorted String.le (registry w')) ∧
  (NoDup (registry w) → NoDup (registry w')) ∧
  saved_tabs w' = saved_tabs w ∧ session w' = session w ∧
  calls_since w w' = [storage_get sync_area ["distractingDomains"];
                      storage_set sync_area "distractingDomains"] ∧
  (isDomainDistracting d w').1 = Returned false.
Proof.
  intros w'. subst w'. rewrite deleteDomainFromDistracting_run.
  set (l := filter (λ x, x ≠ d) (registry w)).
  assert (Hreg : ∀ w0 f, registry (set_sync (λ s, mkSync (Some l) (f s)) w0) = l) by done.
  assert (Hout : d ∉ l).
  { unfold l. rewrite list_elem_of_filter. tauto. }
  rewrite Hreg. repeat split.
  - done.
  - unfold l. rewrite list_elem_of_filter. tauto.
  - unfold l. rewrite list_elem_of_filter. tauto.
  - intros Hs. by apply Sorted_filter_le.
  - intros Hn. by apply NoDup_filter.
  - unfold calls_since. simpl. rewrite <- app_assoc. by rewrite drop_app_length.
  - unfold isDomainDistracting, sync_get_distractingDomains, bind, gets, issue, modify, ret.
    simpl. fold l. f_equal. apply bool_decide_eq_false_2. done.
Qed.

(** X2. Marking a domain and deleting it again gives back a sorted
    registry that did not hold the domain. *)
Theorem save_then_delete_domain (u : string) (url : URL) (w : World) :
  JS.startsWith "http" u = true → URL_new u = Some url →
  Sorted String.le (registry w) → hostname url ∉ registry w →
  let w1 := exec (with_callback (saveDomainAsDistracting (Some u))) w in
  let w2 := exec (with_callback (deleteDomainFromDistracting (hostname url))) w1 in
  hostname url ∈ registry w1 ∧ registry w2 = registry w.
Proof.
  intros Hhttp Hurl Hsorted Hout w1 w2.
  destruct (saveDomainAsDistracting_run u url w Hhttp Hurl) as [Hreg1 _].
  fold w1 in Hreg1. split; [rewrite Hreg1; apply marked_elem_of|].
  subst w2. rewrite deleteDomainFromDistracting_run.
  change (filter (λ x, x ≠ hostname url) (registry w1) = registry w).
  rewrite Hreg1. unfold marked.
  rewrite includes_false by done.
  apply (Sorted_unique String.le); [|done|].
  - apply Sorted_filter_le, sort_Sorted.
  - rewrite sort_Permutation. unfold JS.push. rewrite filter_app.
    rewrite filter_cons_False, filter_nil, app_nil_r by (intros Hne; by apply Hne).
    by rewrite filter_other_domains.
Qed.

(** X3. Deleting a domain from the registry lifts its lock: the next
    activation of a tab on that domain issues no redirect, unlocked or
    not. *)
Theorem delete_lifts_lock (w : World) (tabId : nat) (tab : Tab) (u : string) (url : URL) :
  tabs w !! tabId = Some tab → tab_url tab = Some u → URL_new u = Some url →
  let w' := exec (with_callback (deleteDomainFromDistracting (hostname url))) w in
  redirects (exec (onActivated tabId) w') = redirects w' ∧
  tabs (exec (onActivated tabId) w') = tabs w.
Proof.
  intros Htab Hu Hurl w'.
  destruct (onActivated_passes w' tabId tab u url) as [Hr Ht]; try done.
  left. subst w'. rewrite deleteDomainFromDistracting_run.
  change (hostname url ∉ filter (λ x, x ≠ hostname url) (registry w)).
  rewrite list_elem_of_filter. tauto.
Qed.

Lemma marked_comm (a b : string) (l : list string) :
  marked a (marked b l) = marked b (marked a l).
Proof.
  destruct (decide (a = b)) as [->|Hab]; [done|].
  assert (Hpush : ∀ x y k, x ≠ y → x ∉ k → x ∉ JS.sort (JS.push y k)).
  { intros x y k Hxy Hx. rewrite sort_Permutation. unfold JS.push.
    rewrite elem_of_app, list_elem_of_singleton. tauto. }
  assert (Hkeep : ∀ x y k, x ∈ k → x ∈ JS.sort (JS.push y k)).
  { intros x y k Hx. rewrite sort_Permutation. unfold JS.push.
    rewrite elem_of_app. tauto. }
  unfold marked at 2 4.
  destruct (decide (a ∈ l)) as [Ha|Ha], (decide (b ∈ l)) as [Hb|Hb].
  - rewrite !(proj2 (includes_elem_of _ _)) by done.
    unfold marked. by rewrite !(proj2 (includes_elem_of _ _)) by done.
  - rewrite (proj2 (includes_elem_of a l)), (includes_false b l) by done.
    unfold marked. rewrite (includes_false b l) by done.
    by rewrite (proj2 (includes_elem_of a _)) by (by apply Hkeep).
  - rewrite (proj2 (includes_elem_of b l)), (includes_false a l) by done.
    unfold marked. rewrite (includes_false a l) by done.
    by rewrite (proj2 (includes_elem_of b _)) by (by apply Hkeep).
  - rewrite (includes_false a l), (includes_false b l) by done.
    unfold marked. rewrite !includes_false by (by apply Hpush).
    apply (Sorted_unique String.le); [apply sort_Sorted | apply sort_Sorted |].
    rewrite !sort_Permutation. unfold JS.push. rewrite !sort_Permutation.
    rewrite <- !app_assoc. apply Permutation_app_head. simpl. apply Permutation_swap.
Qed.

(** X4. The order in which two domains are marked does not matter: the
    registry is the same. *)
Theorem save_domains_commute (u1 u2 : string) (url1 url2 : URL) (w : World) :
  JS.startsWith "http" u1 = true → URL_new u1 = Some url1 →
  JS.startsWith "http" u2 = true → URL_new u2 = Some url2 →
  let save u := exec (with_callback (saveDomainAsDistracting (Some u))) in
  registry (save u1 (save u2 w)) = registry (save u2 (save u1 w)).
Proof.
  intros Hh1 Hu1 Hh2 Hu2 save. unfold save.
  rewrite !(proj1 (saveDomainAsDistracting_run u1 url1 _ Hh1 Hu1)).
  rewrite !(proj1 (saveDomainAsDistracting_run u2 url2 _ Hh2 Hu2)).
  rewrite !(proj1 (saveDomainAsDistracting_run u1 url1 _ Hh1 Hu1)).
  apply marked_comm.
Qed.

End RegistryMore.

(** * Further properties of the list of distracting tabs *)

Section SavedTabs.
Context `{Host}.

Lemma existsb_saved_url (u : string) (l : list TabInfo) :
  existsb (λ savedTab, String.eqb (info_url savedTab) u) l = true ↔
  u ∈ info_url <$> l.
Proof.
  rewrite existsb_exists, list_elem_of_fmap. split.
  - intros (s & Hs & Heq). apply String.eqb_eq in Heq.
    exists s. split; [done | by apply list_elem_of_In].
  - intros (s & -> & Hs). exists s. split; [by apply list_elem_of_In|].
    apply String.eqb_refl.
Qed.

(** X5. For a tab whose URL starts with [http], [saveTabAsDistracting]
    appends the URL and the title of the tab when the URL is not saved yet,
    and writes nothing when it is: the entry saved before stays, with the
    title it had.  URLs that were unique stay unique; the registry of
    domains is not touched. *)
Theorem saveTab_records (tab : Tab) (u : string) (w : World) :
  tab_url tab = Some u → JS.startsWith "http" u = true →
  let w' := exec (with_callback (saveTabAsDistracting tab)) w in
  (u ∉ info_url <$> saved_tabs w →
   saved_tabs w' = saved_tabs w ++ [mkTabInfo u (tab_title tab)]) ∧
  (u ∈ info_url <$> saved_tabs w →
   sync w' = sync w ∧
   calls_since w w' = [storage_get sync_area ["distractingTabs"]]) ∧
  (u ∈ info_url <$> saved_tabs w') ∧
  (NoDup (info_url <$> saved_tabs w) → NoDup (info_url <$> saved_tabs w')) ∧
  registry w' = registry w.
Proof.
  intros Hu Hhttp w'. subst w'.
  assert (Hset : ∀ f l w0, saved_tabs (set_sync (λ s, mkSync (f s) (Some l)) w0) = l)
    by done.
  unfold exec, with_callback, saveTabAsDistracting, bind.
  rewrite Hu, Hhttp, (startsWith_http_truthy u Hhttp). simpl.
  change (default [] (distractingTabs (sync w))) with (saved_tabs w).
  destruct (existsb _ (saved_tabs w)) eqn:Hsaved; simpl.
  - apply existsb_saved_url in Hsaved.
    repeat split; try done.
    unfold calls_since. simpl. by rewrite drop_app_length.
  - assert (Hnew : u ∉ info_url <$> saved_tabs w).
    { intros Hin. apply existsb_saved_url in Hin. congruence. }
    rewrite !Hset. unfold JS.push. rewrite fmap_app.
    repeat split; try done.
    + rewrite elem_of_app. right. by left.
    + intros Hnd. apply NoDup_app.
      repeat split; [done | | apply NoDup_singleton].
      intros x Hx ->%list_elem_of_singleton. done.
Qed.

(** X5 in the example: the page is saved once, and a second mark under
    another title changes nothing. *)
Lemma saveTab_records_witness :
  let tab := mkTab 7 1 (Some "https://example.com/x") (Some "first title") None in
  let again := mkTab 7 1 (Some "https://example.com/x") (Some "second title") None in
  let w1 := exec (with_callback (saveTabAsDistracting tab)) Example.fresh_world in
  let w2 := exec (with_callback (saveTabAsDistracting again)) w1 in
  saved_tabs w1 = [mkTabInfo "https://example.com/x" (Some "first title")] ∧
  sync w2 = sync w1.
Proof.
  intros tab again w1 w2. split.
  - apply (saveTab_records tab "https://example.com/x" Example.fresh_world eq_refl eq_refl).
    apply not_elem_of_nil.
  - apply (saveTab_records again "https://example.com/x" w1 eq_refl eq_refl).
    apply list_elem_of_here.
Defined.

(** X6. [deleteTabFromDistracting(tab)] takes out every entry with the URL
    of the tab, keeps the others, and leaves the registry of domains as it
    is, so that the domain of the tab stays locked.  For a tab without a URL
    nothing is taken out. *)
Theorem deleteTab_removes (tab : Tab) (w : World) :
  let w' := exec (with_callback (deleteTabFromDistracting tab)) w in
  (∀ u, tab_url tab = Some u → u ∉ info_url <$> saved_tabs w') ∧
  (∀ s, Some (info_url s) ≠ tab_url tab → (s ∈ saved_tabs w' ↔ s ∈ saved_tabs w)) ∧
  (tab_url tab = None → saved_tabs w' = saved_tabs w) ∧
  (NoDup (info_url <$> saved_tabs w) → NoDup (info_url <$> saved_tabs w')) ∧
  registry w' = registry w ∧
  (∀ d, (isDomainDistracting d w').1 = (isDomainDistracting d w).1).
Proof.
  intros w'.
  assert (Hw' : saved_tabs w' =
                filter (λ s, Some (info_url s) ≠ tab_url tab) (saved_tabs w)) by done.
  rewrite Hw'. repeat split.
  - intros u Hu [s [-> Hs]]%list_elem_of_fmap.
    apply list_elem_of_filter in Hs as [Hne _]. congruence.
  - rewrite list_elem_of_filter. tauto.
  - rewrite list_elem_of_filter. tauto.
  - intros Hnone. rewrite Hnone. clear Hw'.
    generalize (saved_tabs w). intros l.
    induction l as [|s l IH]; [done|].
    rewrite filter_cons_True by done. by rewrite IH.
  - clear Hw'. generalize (saved_tabs w). intros l Hnd.
    induction l as [|s l IH]; [constructor|].
    rewrite fmap_cons in Hnd. apply NoDup_cons in Hnd as [Hs Hl].
    destruct (decide (Some (info_url s) ≠ tab_url tab)).
    + rewrite filter_cons_True by done. rewrite fmap_cons. apply NoDup_cons.
      split; [|by apply IH].
      intros [s' [Heq Hs']]%list_elem_of_fmap.
      apply list_elem_of_filter in Hs' as [_ Hs'].
      apply Hs. apply list_elem_of_fmap. by exists s'.
    + rewrite filter_cons_False by done. by apply IH.
Qed.

End SavedTabs.

(** * Further properties of the grouping service *)

Section SaveFrames.
Context `{Host} {S : Type} (proj : World → S).
Hypothesis proj_sync : ∀ f w, proj (set_sync f w) = proj w.
Hypothesis proj_calls : ∀ f w, proj (set_calls f w) = proj w.




End SaveFrames.

Section GroupingMore.
Context `{Host}.





(** X9. Marking a tab as productive never reads or writes a storage area:
    the registry, the local storage and the session storage are as before
    and no storage call is issued, whatever the tab. *)
Theorem groupTab_productive_frame (tab : Tab) (w : World) :
  let w' := exec (groupTab tab true) w in
  sync w' = sync w ∧ local w' = local w ∧ session w' = session w ∧
  storage_calls w' = storage_calls w.
Proof.
  intros w'.
  destruct (assign_group_frame tab PRODUCTIVE.1 PRODUCTIVE.2 w)
    as (r & w1 & Hassign & Hsync & Hlocal & Hsession & Hcalls & _).
  assert (Hw' : w' = w1).
  { unfold w', exec, groupTab, try_catch, bind. simpl. simpl in Hassign.
    rewrite Hassign. by destruct r as [[]|]. }
  by rewrite Hw'.
Qed.

(** X10. When the URL of the tab starts with [http] and the URL
    constructor rejects it, [groupTab(tab, false)] saves neither the domain
    nor the tab: the registry is as before and no storage call is issued. *)
Theorem groupTab_rejected_url (tab : Tab) (u : string) (w : World) :
  tab_url tab = Some u → JS.startsWith "http" u = true → URL_new u = None →
  let w' := exec (groupTab tab false) w in
  sync w' = sync w ∧ storage_calls w' = storage_calls w ∧
  (groupTab tab false w).1 = Returned tt.
Proof.
  intros Hu Hhttp Hurl w'.
  destruct (assign_group_frame tab DISTRACTING.1 DISTRACTING.2 w)
    as (r & w1 & Hassign & Hsync & _ & _ & Hcalls & _).
  assert (Hw' : groupTab tab false w = (Returned tt, w1)).
  { unfold groupTab, try_catch, bind. simpl. simpl in Hassign. rewrite Hassign.
    destruct r as [[]|]; simpl; [|done].
    unfold saveDomainAsDistracting.
    by rewrite Hu, Hhttp, (startsWith_http_truthy u Hhttp), Hurl. }
  unfold w', exec. by rewrite Hw'.
Qed.

End GroupingMore.

Section GroupingExamples.
#[local] Existing Instance Example.host.


(** X10 in the example: the text [http] alone is no URL. *)
Lemma groupTab_rejected_url_witness :
  let tab := mkTab 7 1 (Some "http") (Some "a page") None in
  let w := Example.open_tab 7 "http" Example.fresh_world in
  sync (exec (groupTab tab false) w) = sync w.
Proof.
  intros tab w.
  apply (@groupTab_rejected_url Example.host tab "http" w eq_refl eq_refl eq_refl).
Defined.

End GroupingExamples.

(** * Further properties of the lock gate and of the unlock flow *)

(** A call is not among the listed ones, which differ from it by their
    constructor. *)
Ltac no_such_call :=
  let Hin := fresh "Hin" in
  intros Hin;
  repeat (apply elem_of_cons in Hin as [Hin|Hin]; [discriminate|]);
  by apply elem_of_nil in Hin.

Section LockMore.
Context `{Host}.

(** The outcome of an activation, case by case. *)
Lemma onActivated_cases (tabId : nat) (w : World) :
  onActivated tabId w =
  match tabs w !! tabId with
  | None => (Thrown, w)
  | Some tab =>
      match tab_url tab with
      | None => (Returned tt, w)
      | Some u =>
          if JS.falsy (Some u) then (Returned tt, w)
          else
            match URL_new u with
            | None => (Thrown, w)
            | Some url =>
                if String.eqb (protocol url) "chrome-extension:" then (Returned tt, w)
                else
                  let w1 := set_calls
                              (λ l, l ++ [storage_get sync_area ["distractingDomains"]]) w in
                  if negb (JS.includes (hostname url) (registry w)) then (Returned tt, w1)
                  else
                    let w2 := set_calls
                                (λ l, l ++ [storage_get session_area
                                               ["unlocked_" +:+ hostname url]]) w1 in
                    if unlocked (hostname url) w then (Returned tt, w2)
                    else
                      (Returned tt,
                       set_tabs (λ m, alter (λ t, mkTab (tab_id t) (tab_windowId t)
                                                    (Some (lock_url u)) (tab_title t)
                                                    (tab_groupId t)) (tab_id tab) m)
                         (set_calls (λ l, l ++ [tabs_update (tab_id tab) (lock_url u)]) w2))
            end
      end
  end.
Proof.
  unfold onActivated, isDomainDistracting, session_get, sync_get_distractingDomains,
    chrome_tabs_update, bind, gets, issue, modify, ret, throw, registry, unlocked.
  cbn [fst snd].
  destruct (tabs w !! tabId) as [tab|]; [|done].
  destruct (tab_url tab) as [u|] eqn:Hu; [|done].
  rewrite ?Hu. destruct (JS.falsy (Some u)); [done|].
  destruct (URL_new u) as [url|]; [|done].
  destruct (String.eqb (protocol url) "chrome-extension:"); [done|].
  cbn [sync set_calls session].
  destruct (negb _); [done|].
  by destruct (default false _).
Qed.

(** X11. The lock gate only reads: an activation leaves the three storage
    areas, the groups and the alarms as they are and issues no storage
    write; it issues at most one redirect, of the activated tab to the lock
    page for the URL of that tab. *)
Theorem lock_gate_reads_only (tabId : nat) (w : World) :
  let w' := exec (onActivated tabId) w in
  sync w' = sync w ∧ local w' = local w ∧ session w' = session w ∧
  groups w' = groups w ∧ alarms w' = alarms w ∧
  (∀ a key, storage_set a key ∉ calls_since w w') ∧
  (redirects w' = redirects w ∨
   ∃ tab u, tabs w !! tabId = Some tab ∧ tab_url tab = Some u ∧
            redirects w' = redirects w ++ [(tab_id tab, lock_url u)]).
Proof.
  intros w'. subst w'.
  assert (Hdrop : ∀ l k : list call, drop (length l) (l ++ k) = k).
  { intros l k. apply drop_app_length. }
  assert (Hquiet : ∀ a key, storage_set a key ∉ calls_since w w).
  { intros a key. unfold calls_since. rewrite drop_all. apply not_elem_of_nil. }
  unfold exec. rewrite onActivated_cases.
  destruct (tabs w !! tabId) as [tab|] eqn:Htab; [|repeat split; try done; by left].
  destruct (tab_url tab) as [u|] eqn:Hu; [|repeat split; try done; by left].
  destruct (JS.falsy (Some u)); [repeat split; try done; by left|].
  destruct (URL_new u) as [url|]; [|repeat split; try done; by left].
  destruct (String.eqb (protocol url) "chrome-extension:");
    [repeat split; try done; by left|].
  cbn zeta. destruct (negb _); [|destruct (unlocked _ _)].
  - repeat split; try done.
    + intros a key. unfold calls_since. simpl. rewrite Hdrop. no_such_call.
    + left. unfold redirects. simpl. rewrite !omap_app. simpl. by rewrite !app_nil_r.
  - repeat split; try done.
    + intros a key. unfold calls_since. simpl. rewrite <- app_assoc, Hdrop.
      no_such_call.
    + left. unfold redirects. simpl. rewrite !omap_app. simpl. by rewrite !app_nil_r.
  - repeat split; try done.
    + intros a key. unfold calls_since. simpl. rewrite <- !app_assoc, Hdrop.
      no_such_call.
    + right. exists tab, u. split; [done|]. split; [done|].
      unfold redirects. simpl. rewrite !omap_app. simpl. by rewrite !app_nil_r.
Qed.

(** X12. No redirect loop: when the lock page has the scheme of the
    extension's own pages, activating a tab a second time issues no
    redirect, whether the first activation sent it to the lock page or
    not. *)
Theorem no_redirect_loop (w : World) (tabId : nat) (tab : Tab) (u : string)
    (lock : URL) :
  tabs w !! tabId = Some tab → tab_id tab = tabId → tab_url tab = Some u →
  URL_new (lock_url u) = Some lock → protocol lock = "chrome-extension:" →
  let w1 := exec (onActivated tabId) w in
  redirects (exec (onActivated tabId) w1) = redirects w1.
Proof.
  intros Htab Hid Hu Hlock Hproto w1. subst w1. unfold exec.
  rewrite (onActivated_cases tabId w), Htab, Hu.
  destruct (JS.falsy (Some u)) eqn:Hfalsy.
  { simpl. rewrite (onActivated_cases tabId w), Htab, Hu, Hfalsy. done. }
  destruct (URL_new u) as [url|] eqn:Hurl.
  2:{ simpl. rewrite (onActivated_cases tabId w), Htab, Hu, Hfalsy, Hurl. done. }
  destruct (String.eqb (protocol url) "chrome-extension:") eqn:Hext.
  { simpl. rewrite (onActivated_cases tabId w), Htab, Hu, Hfalsy, Hurl, Hext. done. }
  cbn zeta.
  destruct (negb (JS.includes (hostname url) (registry w))) eqn:Hreg;
    [|destruct (unlocked (hostname url) w) eqn:Hunlocked].
  - cbn [snd]. rewrite onActivated_cases. cbn [tabs set_calls].
    rewrite Htab, Hu, Hfalsy, Hurl, Hext. cbn zeta.
    change (registry (set_calls _ w)) with (registry w). rewrite Hreg.
    unfold redirects. simpl. rewrite !omap_app. simpl. by rewrite !app_nil_r.
  - cbn [snd]. rewrite onActivated_cases. cbn [tabs set_calls].
    rewrite Htab, Hu, Hfalsy, Hurl, Hext. cbn zeta.
    change (registry (set_calls _ (set_calls _ w))) with (registry w). rewrite Hreg.
    change (unlocked (hostname url) (set_calls _ (set_calls _ w)))
      with (unlocked (hostname url) w). rewrite Hunlocked.
    unfold redirects. simpl. rewrite !omap_app. simpl. by rewrite !app_nil_r.
  - cbn [snd]. rewrite onActivated_cases. cbn [tabs set_tabs set_calls].
    rewrite Hid, lookup_alter_eq, Htab. cbn [fmap option_fmap option_map tab_url].
    rewrite (URL_new_truthy _ _ Hlock), Hlock, Hproto. done.
Qed.

(** X13. A click with the stored PIN on a lock page that has no target
    URL, or one that the URL constructor rejects, throws before anything is
    recorded: the session storage and the page are as before.  A lock page
    opened without a query has no target URL. *)
Theorem unlock_without_target (page : LockPage) (w : World) :
  unlockPin (local w) = Some (pinInput_value page) →
  targetUrl page = None ∨ (∃ target, targetUrl page = Some target ∧ URL_new target = None) →
  (unlock_click page w).1 = Thrown ∧
  session (unlock_click page w).2 = session w ∧
  page_after page (unlock_click page w).1 = page ∧
  (∀ href, JS.location_search href = "" → targetUrl (DOMContentLoaded href) = None).
Proof.
  intros Hpin Htarget.
  unfold unlock_click, local_get_unlockPin, bind, gets, issue, modify, ret, throw. simpl.
  rewrite Hpin, bool_decide_eq_true_2 by done.
  destruct Htarget as [->|(target & -> & ->)]; repeat split; try done.
  - intros href Hsearch. unfold DOMContentLoaded. simpl. by rewrite Hsearch.
  - intros href Hsearch. unfold DOMContentLoaded. simpl. by rewrite Hsearch.
Qed.

(** X14. Without a stored PIN no text unlocks: after any series of
    attempts, the empty text among them, the session storage and the
    location are as before. *)
Theorem no_pin_never_unlocks (pins : list string) (page : LockPage) (w : World) :
  unlockPin (local w) = None →
  session (attempts pins page w).2 = session w ∧
  location_href (attempts pins page w).1 = location_href page ∧
  (∀ d, unlocked d (attempts pins page w).2 = unlocked d w).
Proof.
  intros Hnone.
  destruct (attempts_mismatch pins page w) as (Hs & _ & Hh & _).
  { apply Forall_forall. intros pin _. by rewrite Hnone. }
  split; [done|]. split; [done|]. intros d. unfold unlocked. by rewrite Hs.
Qed.

(** X15. The session storage is written by nothing but the click on the
    unlock button with the stored PIN, and that click only records an
    unlock: every other event leaves the session storage as it is. *)
Theorem session_written_by_unlock_only (e : event) (w : World) :
  session (handle e w) = session w ∨
  ∃ page target url,
    e = UnlockClicked page ∧ targetUrl page = Some target ∧
    URL_new target = Some url ∧ unlockPin (local w) = Some (pinInput_value page) ∧
    session (handle e w) = <["unlocked_" +:+ hostname url := true]> (session w).
Proof.
  destruct e as [tabId|item tab|c|name|page|open]; simpl.
  - left. apply onActivated_session.
  - left. apply onClicked_session.
  - left. apply timer_step_session.
  - left. apply onAlarm_session.
  - destruct (decide (unlockPin (local w) = Some (pinInput_value page))) as [Hpin|Hpin].
    + destruct (targetUrl page) as [target|] eqn:Htarget.
      * destruct (URL_new target) as [url|] eqn:Hurl.
        -- right. exists page, target, url. repeat split; try done.
           unfold exec. by rewrite (unlock_click_match page w target url).
        -- left. unfold exec, unlock_click, local_get_unlockPin, bind, gets, issue,
             modify, ret, throw. simpl.
           rewrite Hpin, bool_decide_eq_true_2 by done. by rewrite Htarget, Hurl.
      * left. unfold exec, unlock_click, local_get_unlockPin, bind, gets, issue,
          modify, ret, throw. simpl.
        rewrite Hpin, bool_decide_eq_true_2 by done. by rewrite Htarget.
    + left. unfold exec. by rewrite unlock_click_mismatch.
  - by left.
Qed.

End LockMore.

Section LockMoreExamples.
#[local] Existing Instance Example.host.
Import Example.

(** X12 in the example: the tab on a registered domain is sent to the lock
    page once. *)
Lemma no_redirect_loop_witness :
  let u := "https://example.com/x" in
  let w := with_registry ["example.com"] (open_tab 7 u fresh_world) in
  let w1 := exec (onActivated 7) w in
  redirects (exec (onActivated 7) w1) = redirects w1.
Proof.
  exact (@no_redirect_loop host
           (with_registry ["example.com"] (open_tab 7 "https://example.com/x" fresh_world))
           7 (mkTab 7 1 (Some "https://example.com/x") (Some "a page") None)
           "https://example.com/x"
           (mkURL "chrome-extension:" "abcdefghijklmnopabcdefghijklmnop")
           eq_refl eq_refl eq_refl eq_refl eq_refl).
Defined.

(** X13 in the example: the lock page opened by hand, without a query. *)
Lemma unlock_without_target_witness :
  let page := type_pin "1234" (DOMContentLoaded (getURL "html/locked.html")) in
  let w := with_pin "1234" fresh_world in
  (unlock_click page w).1 = Thrown ∧ session (unlock_click page w).2 = session w.
Proof.
  intros page w.
  destruct (@unlock_without_target host page w eq_refl (or_introl eq_refl))
    as (Hthrown & Hsession & _).
  split; [exact Hthrown | exact Hsession].
Defined.

(** X14 in the example: a fresh profile has no PIN. *)
Lemma no_pin_never_unlocks_witness :
  let page := typed_lock_page "https://example.com/x" "" in
  session (attempts [""; "0000"; "1234"] page fresh_world).2 = session fresh_world.
Proof.
  intros page.
  apply (@no_pin_never_unlocks host [""; "0000"; "1234"] page fresh_world eq_refl).
Defined.

End LockMoreExamples.

(** * Further properties of the countdown timer *)

Section TimerMore.
Import Timer.

Lemma step_alarms_dom (c : command) (w : World) :
  dom (alarms (step c w)) ⊆ dom (alarms w) ∪ {[alarm_name]}.
Proof.
  destruct c as [[d| | |] t t'].
  - rewrite step_START. simpl. rewrite dom_insert_L.
    apply union_least; [apply union_subseteq_r | apply union_subseteq_l].
  - rewrite step_PAUSE_alarms, dom_delete_L.
    etransitivity; [apply subseteq_difference_l; reflexivity | apply union_subseteq_l].
  - rewrite step_CONTINUE_alarms, dom_insert_L.
    apply union_least; [apply union_subseteq_r | apply union_subseteq_l].
  - rewrite step_other. apply union_subseteq_l.
Qed.

(** X16. The timer never schedules more than its one alarm: when no
    other alarm is scheduled, none is after any sequence of commands, and a
    START that follows a START replaces the time of the alarm. *)
Theorem one_alarm (cs : list command) (w : World) :
  dom (alarms w) ⊆ {[alarm_name]} →
  dom (alarms (run cs w)) ⊆ {[alarm_name]} ∧
  (size (alarms (run cs w)) ≤ 1)%nat ∧
  (∀ d1 t1 t1' d2 t2 t2',
     alarms (step (mkCommand (START_TIMER (JS.Num d2)) t2 t2')
               (step (mkCommand (START_TIMER (JS.Num d1)) t1 t1') w)) =
     <[alarm_name := JS.Num (t2 + d2)]> (alarms w)).
Proof.
  intros Hw.
  assert (Hrun : dom (alarms (run cs w)) ⊆ {[alarm_name]}).
  { revert w Hw. induction cs as [|c cs IH]; intros w Hw; [done|].
    simpl. apply IH. etransitivity; [apply step_alarms_dom|].
    apply union_least; [done | reflexivity]. }
  split; [done|]. split.
  - rewrite <- size_dom. etransitivity; [by apply subseteq_size|].
    by rewrite size_singleton.
  - intros d1 t1 t1' d2 t2 t2'. rewrite !step_START. simpl.
    by rewrite insert_insert_eq.
Qed.

(** X16 in the example: three commands on a fresh profile. *)
Lemma one_alarm_witness :
  (size (alarms (run [START 5000 0; START 8000 10; CONTINUE 20] Example.fresh_world))
   ≤ 1)%nat.
Proof.
  apply (one_alarm [START 5000 0; START 8000 10; CONTINUE 20] Example.fresh_world).
  simpl. rewrite dom_empty_L. apply empty_subseteq.
Defined.

(** X17. Time spent paused is not counted. With [r] stored at START,
    after a PAUSE, a CONTINUE and a second PAUSE the stored remaining time is
    [r] minus the two stretches during which the timer ran, and the CONTINUE
    in between schedules the alarm for the moment at which what was left
    after the first stretch has run. *)
Theorem paused_time_not_counted (w : World) (r d t0 t1 t2 t3 : Z) :
  RemainingTime (local w) = Some (JS.Num r) →
  let w2 := run [START d t0; PAUSE t1; CONTINUE t2] w in
  let w3 := step (PAUSE t3) w2 in
  alarms w2 !! alarm_name = Some (JS.Num (t2 + (r - (t1 - t0)))) ∧
  RemainingTime (local w3) = Some (JS.Num (r - (t1 - t0) - (t3 - t2))) ∧
  alarms w3 !! alarm_name = None.
Proof.
  intros Hr w2 w3. subst w3 w2. unfold run, START, PAUSE, CONTINUE. cbn [foldl].
  rewrite step_PAUSE_alarms, lookup_delete_eq.
  rewrite step_CONTINUE_alarms, lookup_insert_eq.
  rewrite !step_PAUSE_local, !step_CONTINUE_local, !step_PAUSE_local.
  rewrite !step_remaining, Hr by done. simpl.
  repeat split; do 2 f_equal; lia.
Qed.

Lemma paused_time_not_counted_witness :
  let w := Example.with_remaining 5000 Example.fresh_world in
  RemainingTime (local (run [START 5000 0; PAUSE 2000; CONTINUE 60000; PAUSE 61000] w))
  = Some (JS.Num (5000 - (2000 - 0) - (61000 - 60000))).
Proof.
  exact (proj1 (proj2 (paused_time_not_counted
                         (Example.with_remaining 5000 Example.fresh_world)
                         5000 5000 0 2000 60000 61000 eq_refl))).
Defined.

(** X18. A PAUSE does not move [StartingTime]: a second PAUSE without a
    CONTINUE in between subtracts the time since [StartingTime] again, so
    the stretch before the first PAUSE is counted twice. *)
Theorem pause_twice_counts_twice (w : World) (s r t1 t2 : Z) :
  StartingTime (local w) = Some (JS.Num s) →
  RemainingTime (local w) = Some (JS.Num r) →
  RemainingTime (local (run [PAUSE t1; PAUSE t2] w)) =
  Some (JS.Num (r - (t1 - s) - (t2 - s))).
Proof.
  intros Hs Hr. unfold run, PAUSE. cbn [foldl].
  rewrite !step_PAUSE_local. simpl. rewrite Hs, Hr. done.
Qed.

Lemma pause_twice_counts_twice_witness :
  let w := step (START 5000 0) (Example.with_remaining 5000 Example.fresh_world) in
  RemainingTime (local (run [PAUSE 1000; PAUSE 1000] w)) =
  Some (JS.Num (5000 - (1000 - 0) - (1000 - 0))).
Proof.
  exact (pause_twice_counts_twice
           (step (START 5000 0) (Example.with_remaining 5000 Example.fresh_world))
           0 5000 1000 1000 eq_refl eq_refl).
Defined.

(** X19. The timer keeps to its own two keys and its own alarm: a command
    leaves the registry, the session storage, the tabs, the groups, the PIN
    and the task list as they are, and an alarm under another name as it
    is. *)
Theorem timer_frame (c : command) (w : World) :
  let w' := step c w in
  sync w' = sync w ∧ session w' = session w ∧ tabs w' = tabs w ∧
  groups w' = groups w ∧ popups w' = popups w ∧
  unlockPin (local w') = unlockPin (local w) ∧ tasks (local w') = tasks (local w) ∧
  (∀ name, name ≠ alarm_name → alarms w' !! name = alarms w !! name).
Proof.
  destruct c as [[d| | |] t t']; cbn zeta; repeat split; try done.
  - intros name Hname. rewrite step_START. simpl. by rewrite lookup_insert_ne.
  - intros name Hname. rewrite step_PAUSE_alarms. by rewrite lookup_delete_ne.
  - intros name Hname. rewrite step_CONTINUE_alarms. by rewrite lookup_insert_ne.
Qed.

End TimerMore.

(** * Further properties of the task list *)

Section TasksMore.
Import Tasks.

Lemma SaveTasks_in_sync (data : taskData) (w : World) :
  in_sync data (SaveTasks data w).2.
Proof. reflexivity. Qed.




Lemma splice_fmap {A B} (f : A → B) (i n : nat) (l : list A) :
  JS.splice i n (f <$> l) = f <$> JS.splice i n l.
Proof. unfold JS.splice. by rewrite fmap_app, fmap_take, fmap_drop. Qed.




(** X21. The two add buttons ignore an empty text: nothing changes and
    nothing is stored.  With a text, they put a new task after the others,
    which keep their places, and store the list; the task is plain, or timed
    with the empty deadline, and has no subtasks. *)
Theorem add_buttons (taskText : string) (data : taskData) (w : World) :
  add_task "" data w = (Returned data, w) ∧
  add_timed_task "" data w = (Returned data, w) ∧
  (taskText ≠ "" →
   let plain := data ++ [Task (Str taskText) (Array [])] in
   let timed := data ++ [TimedTask (Str taskText) (Array []) (Str "")] in
   (add_task taskText data w).1 = Returned plain ∧
   (add_timed_task taskText data w).1 = Returned timed ∧
   in_sync plain (add_task taskText data w).2 ∧
   in_sync timed (add_timed_task taskText data w).2 ∧
   (∀ i, i < length data → plain !! i = data !! i ∧ timed !! i = data !! i) ∧
   plain !! length data = Some (Task (Str taskText) (Array [])) ∧
   timed !! length data = Some (TimedTask (Str taskText) (Array []) (Str ""))).
Proof.
  split; [done|]. split; [done|].
  intros Hne plain timed. unfold add_task, add_timed_task.
  rewrite (proj2 (String.eqb_neq taskText "")) by done.
  repeat split; try done.
  - by apply lookup_app_l.
  - by apply lookup_app_l.
  - unfold plain. by rewrite lookup_app_r, Nat.sub_diag.
  - unfold timed. by rewrite lookup_app_r, Nat.sub_diag.
Qed.

(** X22. A handler that changes a task in place (its text, its deadline,
    its subtasks) leaves the number of tasks and every other task as they
    are. *)
Theorem in_place_frame (op : operation) (tIndex : nat) (data data' : taskData)
    (w : World) :
  in_place op = Some tIndex →
  (perform op data w).1 = Returned data' →
  length data' = length data ∧
  ∀ i, i ≠ tIndex → data' !! i = data !! i.
Proof.
  assert (Hins : ∀ t, length (<[tIndex := t]> data) = length data ∧
                      ∀ i, i ≠ tIndex → <[tIndex := t]> data !! i = data !! i).
  { intros t. split; [apply length_insert|].
    intros i Hi. by apply list_lookup_insert_ne. }
  intros Hop Hret.
  destruct op as [txt|txt|i|i text|i deadline|i txt|i j text|i j];
    simpl in Hop; simplify_eq; simpl in Hret.
  - unfold edit_text in Hret.
    destruct (data !! tIndex); simpl in Hret; simplify_eq; first [done | apply Hins].
  - unfold edit_deadline in Hret.
    destruct (data !! tIndex) as [[? ?|? ? ?]|]; simpl in Hret; simplify_eq;
      first [done | apply Hins].
  - unfold add_subtask in Hret.
    destruct (data !! tIndex) as [t|]; [|simpl in Hret; by simplify_eq].
    destruct (String.eqb txt ""); [simpl in Hret; by simplify_eq|].
    destruct (subtasks_of t); simpl in Hret; simplify_eq; first [done | apply Hins].
  - unfold edit_subtask in Hret.
    destruct (data !! tIndex) as [t|]; [|simpl in Hret; by simplify_eq].
    destruct (subtasks_of t) as [| | | | |items|]; simpl in Hret; try by simplify_eq.
    destruct (items !! j) as [[]|]; simpl in Hret; simplify_eq;
      first [done | apply Hins].
  - unfold remove_subtask in Hret.
    destruct (data !! tIndex) as [t|]; [|simpl in Hret; by simplify_eq].
    destruct (subtasks_of t); simpl in Hret; simplify_eq; first [done | apply Hins].
Qed.

(** X22 in the example: a subtask is added to the second task. *)
Lemma in_place_frame_witness :
  let data := [Task (Str "a") (Array []); Task (Str "b") (Array [])] in
  let data' := [Task (Str "a") (Array []); Task (Str "b") (Array [subtask "x"])] in
  length data' = length data ∧ data' !! 0 = data !! 0.
Proof.
  intros data data'.
  destruct (in_place_frame (AddSubtask 1 "x") 1 data data' Example.fresh_world
              eq_refl eq_refl) as [Hlength Hothers].
  split; [exact Hlength | apply Hothers; lia].
Defined.

(** X23. On a task whose subtasks are [{text}] objects, the [+] button
    with a text puts a subtask after the others and ignores an empty text;
    the remove mark takes out the subtask at its index and keeps the order
    of the others; typing in a subtask replaces its text and nothing
    else. *)
Theorem subtask_handlers (tIndex : nat) (t : task) (subs : list string)
    (data : taskData) (w : World) :
  data !! tIndex = Some t → subtasks_of t = Array (subtask <$> subs) →
  let with_subtasks subs' := <[tIndex := set_subtasks (Array (subtask <$> subs')) t]> data in
  add_subtask tIndex "" data w = (Returned data, w) ∧
  (∀ txt, txt ≠ "" →
     (add_subtask tIndex txt data w).1 = Returned (with_subtasks (subs ++ [txt]))) ∧
  (∀ sIndex,
     (remove_subtask tIndex sIndex data w).1 =
     Returned (with_subtasks (take sIndex subs ++ drop (S sIndex) subs))) ∧
  (∀ sIndex text, sIndex < length subs →
     (edit_subtask tIndex sIndex text data w).1 =
     Returned (with_subtasks (<[sIndex := text]> subs))) ∧
  (∀ sIndex text, (length subs ≤ sIndex)%nat →
     edit_subtask tIndex sIndex text data w = (Returned data, w)).
Proof.
  intros Ht Hsubs with_subtasks. unfold with_subtasks.
  split; [|split; [|split; [|split]]].
  - unfold add_subtask. by rewrite Ht.
  - intros txt Hne. unfold add_subtask.
    rewrite Ht, (proj2 (String.eqb_neq txt "")), Hsubs by done. simpl.
    unfold JS.push. by rewrite fmap_app.
  - intros sIndex. unfold remove_subtask. rewrite Ht, Hsubs. simpl.
    rewrite splice_fmap. unfold JS.splice. by rewrite Nat.add_1_r.
  - intros sIndex text Hlt. unfold edit_subtask. rewrite Ht, Hsubs.
    rewrite list_lookup_fmap.
    destruct (subs !! sIndex) as [old|] eqn:Hold.
    + simpl. by rewrite list_fmap_insert.
    + apply lookup_ge_None in Hold. lia.
  - intros sIndex text Hge. unfold edit_subtask. rewrite Ht, Hsubs.
    rewrite list_lookup_fmap. by rewrite (proj2 (lookup_ge_None subs sIndex)).
Qed.

Lemma subtask_handlers_witness :
  let t := Task (Str "write") (Array [subtask "a"; subtask "b"; subtask "c"]) in
  (remove_subtask 0 1 [t] Example.fresh_world).1 =
  Returned [Task (Str "write") (Array [subtask "a"; subtask "c"])].
Proof.
  intros t.
  exact (proj1 (proj2 (proj2 (subtask_handlers 0 t ["a"; "b"; "c"] [t]
                                 Example.fresh_world eq_refl eq_refl))) 1).
Defined.

End TasksMore.

Section RegistryMoreExamples.
#[local] Existing Instance Example.host.
Import Example.

(** X2 in the example: [example.com] is marked and deleted again. *)
Lemma save_then_delete_domain_witness :
  let w := with_registry ["a.org"; "z.net"] fresh_world in
  let w1 := exec (with_callback (saveDomainAsDistracting (Some "https://example.com/x"))) w in
  let w2 := exec (with_callback (deleteDomainFromDistracting "example.com")) w1 in
  "example.com" ∈ registry w1 ∧ registry w2 = registry w.
Proof.
  apply (@save_then_delete_domain host "https://example.com/x"
           (mkURL "https:" "example.com") (with_registry ["a.org"; "z.net"] fresh_world)
           eq_refl eq_refl).
  - repeat constructor.
  - simpl. intros Hin.
    repeat (apply elem_of_cons in Hin as [Hin|Hin]; [discriminate|]).
    by apply elem_of_nil in Hin.
Defined.

(** X3 in the example: the registered domain is deleted, and the tab on
    it is let through. *)
Lemma delete_lifts_lock_witness :
  let w := with_registry ["example.com"] (open_tab 7 "https://example.com/x" fresh_world) in
  let w' := exec (with_callback (deleteDomainFromDistracting "example.com")) w in
  redirects (exec (onActivated 7) w') = redirects w' ∧
  tabs (exec (onActivated 7) w') = tabs w.
Proof.
  exact (@delete_lifts_lock host
           (with_registry ["example.com"] (open_tab 7 "https://example.com/x" fresh_world))
           7 (mkTab 7 1 (Some "https://example.com/x") (Some "a page") None)
           "https://example.com/x" (mkURL "https:" "example.com")
           eq_refl eq_refl eq_refl).
Defined.

(** X4 in the example: two domains, marked in both orders. *)
Lemma save_domains_commute_witness :
  let save u := exec (with_callback (saveDomainAsDistracting (Some u))) in
  registry (save "https://b.example/" (save "http://a.example/" fresh_world)) =
  registry (save "http://a.example/" (save "https://b.example/" fresh_world)).
Proof.
  exact (@save_domains_commute host "https://b.example/" "http://a.example/"
           (mkURL "https:" "b.example") (mkURL "http:" "a.example") fresh_world
           eq_refl eq_refl eq_refl eq_refl).
Defined.

End RegistryMoreExamples.
